(** * Resolver layer of the hackernews GraphQL server

    Shallow embedding of [server/src/utils.js] ([getUserId]),
    [server/src/resolvers/Mutation.js] ([post], [signup], [login],
    [deleteLink], [updateLink], [vote]) and [server/src/resolvers/Query.js]
    ([feed]), over a model of the Prisma client they call through
    [context.prisma].  JavaScript exceptions are the [inl] branch of a
    state/error monad; the store is threaded explicitly, so a thrown error
    keeps whatever the store was when it was thrown (there is no rollback). *)

From Stdlib Require Import String Ascii List Bool Arith Lia.
From Stdlib Require HexString DecimalString DecimalNat DecimalN.
From Stdlib Require Import ZArith NArith.
Import ListNotations.
Open Scope string_scope.

(** ** Data model (the Prisma datamodel of the README) *)

Record Link := mkLink {
  link_id : string;
  link_createdAt : nat;
  link_description : string;
  link_url : string;
  link_postedBy : option string
}.

Record User := mkUser {
  user_id : string;
  user_name : string;
  user_email : string;
  user_password : string
}.

Record Vote := mkVote {
  vote_id : string;
  vote_user : string;
  vote_link : string
}.

(** Prisma's mutation events, as filtered by [mutation_in]. *)
Inductive Event :=
| LinkCreated (l : Link)
| LinkUpdated (l : Link)
| LinkDeleted (l : Link)
| UserCreated (u : User)
| VoteCreated (v : Vote).

(** The event kinds a subscription filters on:
    [$subscribe.link({ mutation_in: ['CREATED'] })] and
    [$subscribe.vote({ mutation_in: ['CREATED'] })]. *)
Inductive EventKind := LinkCreatedKind | VoteCreatedKind.

Definition event_kind_matches (k : EventKind) (e : Event) : bool :=
  match k, e with
  | LinkCreatedKind, LinkCreated _ => true
  | VoteCreatedKind, VoteCreated _ => true
  | _, _ => false
  end.

(** A registered subscription: its id, the event kind it listens to and
    the queue of payloads pushed to it so far. *)
Record Listener := mkListener {
  listener_id : nat;
  listener_kind : EventKind;
  listener_queue : list Event
}.

Record Store := mkStore {
  links : list Link;
  users : list User;
  votes : list Vote;
  listeners : list Listener;
  next_id : nat;     (* source of fresh ids, timestamps and listener ids *)
  salt_seed : nat    (* source of bcrypt's random salts *)
}.

(** Errors thrown along the resolver chain. *)
Inductive Err :=
| ErrNotAuthenticated      (* utils.js: throw new Error('Not authenticated') *)
| ErrJwt                   (* jsonwebtoken: jwt.verify throws *)
| ErrNoSuchUser            (* Mutation.js: 'No such user found' *)
| ErrInvalidPassword       (* Mutation.js: 'Invalid password' *)
| ErrAlreadyVoted          (* Mutation.js: `Already voted for link: ...` *)
| ErrNodeNotFound          (* Prisma: no node for the given where / connect *)
| ErrUniqueEmail           (* Prisma: unique constraint on User.email *)
| ErrInvalidInput.         (* Prisma: argument does not fit its input type *)

(** ** A state/error monad for async resolvers *)

Definition M (A : Type) : Type := Store -> (Err + A) * Store.

Definition ret {A} (a : A) : M A := fun st => (inr a, st).
Definition throw {A} (e : Err) : M A := fun st => (inl e, st).
Definition bind {A B} (m : M A) (k : A -> M B) : M B :=
  fun st => match m st with
            | (inl e, st') => (inl e, st')
            | (inr a, st') => k a st'
            end.
Definition get_store : M Store := fun st => (inr st, st).
Definition put_store (st : Store) : M unit := fun _ => (inr tt, st).

Notation "x <-- c ;; k" := (bind c (fun x => k))
  (at level 61, c at next level, right associativity).
Notation "c ;;; k" := (bind c (fun _ => k))
  (at level 61, right associativity).

(** JavaScript truthiness of a string: only [""] is falsy. *)
Definition truthy (s : string) : bool :=
  match s with EmptyString => false | _ => true end.

(** [String.prototype.replace] with a string pattern: replaces the first
    occurrence only, wherever it is. *)
Fixpoint replace_first (pat rep s : string) : string :=
  if String.prefix pat s then rep ++ substring (String.length pat) (String.length s) s
  else match s with
       | EmptyString => EmptyString
       | String c r => String c (replace_first pat rep r)
       end.

(** ** External primitives

    [jsonwebtoken] signs and verifies the payload [{ userId }] with the
    process-wide [APP_SECRET]; [bcryptjs] hashes with a random salt and
    compares a plaintext against a stored hash.  Both are libraries, so
    they are interfaces here; their laws are stated where a theorem uses
    them. *)
Class TokenService := {
  jwt_sign : string -> string;          (* jwt.sign({ userId }, APP_SECRET) *)
  jwt_verify : string -> option string  (* jwt.verify(token, APP_SECRET).userId *)
}.

Class PasswordHasher := {
  bcrypt_hash : string -> nat -> string;   (* bcrypt.hash(pw, 10) with salt *)
  bcrypt_compare : string -> string -> bool (* bcrypt.compare(pw, hash) *)
}.


(** ** The Prisma client (Data Access Facade) *)

(** Modelled from the spec: the generated [prisma-client] is not part of
    the sources; its operations follow the facade of the spec (create,
    get, list with where/skip/first/orderBy, update and delete by id
    failing when the id does not resolve, exists, count) and Prisma's
    [$subscribe] delivering each event to the listeners registered when it
    is published. *)

Definition set_links (st : Store) (ls : list Link) : Store :=
  mkStore ls (users st) (votes st) (listeners st) (next_id st) (salt_seed st).
Definition set_users (st : Store) (us : list User) : Store :=
  mkStore (links st) us (votes st) (listeners st) (next_id st) (salt_seed st).
Definition set_votes (st : Store) (vs : list Vote) : Store :=
  mkStore (links st) (users st) vs (listeners st) (next_id st) (salt_seed st).
Definition set_listeners (st : Store) (ls : list Listener) : Store :=
  mkStore (links st) (users st) (votes st) ls (next_id st) (salt_seed st).

Definition fresh : M nat := fun st =>
  (inr (next_id st),
   mkStore (links st) (users st) (votes st) (listeners st) (S (next_id st)) (salt_seed st)).

Definition draw_salt : M nat := fun st =>
  (inr (salt_seed st),
   mkStore (links st) (users st) (votes st) (listeners st) (next_id st) (S (salt_seed st))).

Definition modify (f : Store -> Store) : M unit := fun st => (inr tt, f st).

(** Push an event to every listener registered for its kind. *)
Definition push (e : Event) (l : Listener) : Listener :=
  if event_kind_matches (listener_kind l) e
  then mkListener (listener_id l) (listener_kind l) (listener_queue l ++ [e])
  else l.

Definition publish (e : Event) : M unit :=
  modify (fun st => set_listeners st (map (push e) (listeners st))).

Definition user_exists (st : Store) (uid : string) : bool :=
  existsb (fun u => String.eqb (user_id u) uid) (users st).

Definition find_link (st : Store) (id : string) : option Link :=
  find (fun l => String.eqb (link_id l) id) (links st).

Definition link_exists (st : Store) (id : string) : bool :=
  match find_link st id with Some _ => true | None => false end.

(** prisma.createLink({ url, description, postedBy: { connect: { id } } }) *)
Definition prisma_createLink (url description : string) (postedBy : option string)
  : M Link :=
  st <-- get_store ;;
  match postedBy with
  | Some uid => if user_exists st uid then ret tt else throw ErrNodeNotFound
  | None => ret tt
  end ;;;
  n <-- fresh ;;
  let l := mkLink (HexString.of_nat n) n description url postedBy in
  modify (fun st => set_links st (links st ++ [l])) ;;;
  publish (LinkCreated l) ;;;
  ret l.

Definition replace_link (id : string) (l' : Link) (l : Link) : Link :=
  if String.eqb (link_id l) id then l' else l.

(** prisma.updateLink({ data: { url, description }, where: { id } }) *)
Definition prisma_updateLink (id url description : string) : M Link :=
  st <-- get_store ;;
  match find_link st id with
  | None => throw ErrNodeNotFound
  | Some l =>
      let l' := mkLink (link_id l) (link_createdAt l) description url (link_postedBy l) in
      modify (fun st => set_links st (map (replace_link id l') (links st))) ;;;
      publish (LinkUpdated l') ;;;
      ret l'
  end.

#[local] Set Warnings "-register-all".

(** A JavaScript value handed to the Prisma client as an input object. *)
Inductive JsVal :=
| JStr (s : string)
| JObj (fields : list (string * JsVal)).

(** prisma.deleteLink(where): the generated client sends its single
    argument as the [where: LinkWhereUniqueInput!] of the mutation.  The
    only field of [LinkWhereUniqueInput] is [id]; an argument of any other
    shape fails the server's input validation, before anything is
    deleted. *)
Definition prisma_deleteLink (where_ : JsVal) : M Link :=
  match where_ with
  | JObj [(field, JStr id)] =>
      if String.eqb field "id" then
        st <-- get_store ;;
        match find_link st id with
        | None => throw ErrNodeNotFound
        | Some l =>
            modify (fun st => set_links st
                      (filter (fun l => negb (String.eqb (link_id l) id)) (links st))) ;;;
            publish (LinkDeleted l) ;;;
            ret l
        end
      else throw ErrInvalidInput
  | _ => throw ErrInvalidInput
  end.

(** prisma.createUser({ name, email, password }); [email] is @unique. *)
Definition prisma_createUser (name email password : string) : M User :=
  st <-- get_store ;;
  (if existsb (fun u => String.eqb (user_email u) email) (users st)
   then throw ErrUniqueEmail else ret tt) ;;;
  n <-- fresh ;;
  let u := mkUser (HexString.of_nat n) name email password in
  modify (fun st => set_users st (users st ++ [u])) ;;;
  publish (UserCreated u) ;;;
  ret u.

(** prisma.user({ email }) *)
Definition prisma_user_by_email (email : string) : M (option User) :=
  st <-- get_store ;;
  ret (find (fun u => String.eqb (user_email u) email) (users st)).

Definition vote_matches (uid lid : string) (v : Vote) : bool :=
  String.eqb (vote_user v) uid && String.eqb (vote_link v) lid.

(** prisma.$exists.vote({ user: { id }, link: { id } }) *)
Definition prisma_exists_vote (uid lid : string) : M bool :=
  st <-- get_store ;;
  ret (existsb (vote_matches uid lid) (votes st)).

(** prisma.createVote({ user: { connect }, link: { connect } }) *)
Definition prisma_createVote (uid lid : string) : M Vote :=
  st <-- get_store ;;
  (if user_exists st uid && link_exists st lid
   then ret tt else throw ErrNodeNotFound) ;;;
  n <-- fresh ;;
  let v := mkVote (HexString.of_nat n) uid lid in
  modify (fun st => set_votes st (votes st ++ [v])) ;;;
  publish (VoteCreated v) ;;;
  ret v.

(** prisma.$subscribe.<model>({ mutation_in: ['CREATED'] }): register a
    listener; returns its id. *)
Definition prisma_subscribe (k : EventKind) : M nat :=
  n <-- fresh ;;
  modify (fun st => set_listeners st (listeners st ++ [mkListener n k []])) ;;;
  ret n.

(** Prisma's [LinkWhereInput], as far as [feed] builds it. *)
Inductive LinkWhereInput :=
| WhereAll                              (* {} *)
| WhereOr (ws : list LinkWhereInput)    (* { OR: [...] } *)
| DescriptionContains (s : string)      (* { description_contains: s } *)
| UrlContains (s : string).             (* { url_contains: s } *)

(** Case-sensitive substring test of [_contains]. *)
Fixpoint contains (needle s : string) : bool :=
  String.prefix needle s ||
  match s with
  | EmptyString => false
  | String _ r => contains needle r
  end.

Fixpoint where_eval (w : LinkWhereInput) (l : Link) : bool :=
  match w with
  | WhereAll => true
  | WhereOr ws =>
      (fix any ws := match ws with
                     | [] => false
                     | w :: r => where_eval w l || any r
                     end) ws
  | DescriptionContains s => contains s (link_description l)
  | UrlContains s => contains s (link_url l)
  end.

Inductive LinkOrderByInput :=
| id_ASC | id_DESC | description_ASC | description_DESC
| url_ASC | url_DESC | createdAt_ASC | createdAt_DESC.

Definition order_le (o : LinkOrderByInput) (a b : Link) : bool :=
  match o with
  | id_ASC => String.leb (link_id a) (link_id b)
  | id_DESC => String.leb (link_id b) (link_id a)
  | description_ASC => String.leb (link_description a) (link_description b)
  | description_DESC => String.leb (link_description b) (link_description a)
  | url_ASC => String.leb (link_url a) (link_url b)
  | url_DESC => String.leb (link_url b) (link_url a)
  | createdAt_ASC => Nat.leb (link_createdAt a) (link_createdAt b)
  | createdAt_DESC => Nat.leb (link_createdAt b) (link_createdAt a)
  end.

Fixpoint insert_by (le : Link -> Link -> bool) (x : Link) (ys : list Link) : list Link :=
  match ys with
  | [] => [x]
  | y :: r => if le y x then y :: insert_by le x r else x :: ys
  end.

Fixpoint sort_by (le : Link -> Link -> bool) (xs : list Link) : list Link :=
  match xs with
  | [] => []
  | x :: r => insert_by le x (sort_by le r)
  end.

Definition order_links (ob : option LinkOrderByInput) (ls : list Link) : list Link :=
  match ob with
  | None => ls
  | Some o => sort_by (order_le o) ls
  end.

Definition take_first (first : option nat) (ls : list Link) : list Link :=
  match first with
  | None => ls
  | Some n => firstn n ls
  end.

(** prisma.links({ where, skip, first, orderBy }): filter, order, then
    skip and first. *)
Definition prisma_links (w : LinkWhereInput) (skip first : option nat)
  (ob : option LinkOrderByInput) : M (list Link) :=
  st <-- get_store ;;
  ret (take_first first
         (skipn (match skip with Some k => k | None => 0 end)
            (order_links ob (filter (where_eval w) (links st))))).

(** prisma.linksConnection({ where }).aggregate().count() *)
Definition prisma_links_count (w : LinkWhereInput) : M nat :=
  st <-- get_store ;;
  ret (length (filter (where_eval w) (links st))).

(** ** Resolvers *)

(** The part of [context] the resolvers read besides [prisma]: the value
    of [context.request.get('Authorization')]. *)
Record Ctx := mkCtx { authorization : option string }.

Record AuthPayload := mkAuthPayload { payload_token : string; payload_user : User }.

Record FeedArgs := mkFeedArgs {
  filter_arg : option string;
  skip_arg : option nat;
  first_arg : option nat;
  orderBy_arg : option LinkOrderByInput
}.

Record Feed := mkFeed { feed_links : list Link; feed_count : nat }.

Section Resolvers.
Context `{TS : TokenService} `{PH : PasswordHasher}.

(** utils.js: getUserId *)
Definition getUserId (context : Ctx) : M string :=
  match authorization context with
  | Some Authorization =>
      if truthy Authorization then
        let token := replace_first "Bearer " "" Authorization in
        match jwt_verify token with
        | Some userId => ret userId
        | None => throw ErrJwt
        end
      else throw ErrNotAuthenticated
  | None => throw ErrNotAuthenticated
  end.

(** Mutation.post *)
Definition post (context : Ctx) (url description : string) : M Link :=
  userId <-- getUserId context ;;
  prisma_createLink url description (Some userId).

(** Mutation.signup: [{ ...args, password }] keeps [email] and [name] and
    replaces [password] by its hash. *)
Definition signup (context : Ctx) (email password name : string) : M AuthPayload :=
  salt <-- draw_salt ;;
  let password' := bcrypt_hash password salt in
  user <-- prisma_createUser name email password' ;;
  let token := jwt_sign (user_id user) in
  ret (mkAuthPayload token user).

(** Mutation.login *)
Definition login (context : Ctx) (email password : string) : M AuthPayload :=
  ou <-- prisma_user_by_email email ;;
  match ou with
  | None => throw ErrNoSuchUser
  | Some user =>
      if bcrypt_compare password (user_password user)
      then ret (mkAuthPayload (jwt_sign (user_id user)) user)
      else throw ErrInvalidPassword
  end.

(** Mutation.deleteLink: [prisma.deleteLink({ where: { id: args.id } })] *)
Definition deleteLink (context : Ctx) (id : string) : M Link :=
  getUserId context ;;;
  prisma_deleteLink (JObj [("where", JObj [("id", JStr id)])]).

(** Mutation.updateLink *)
Definition updateLink (context : Ctx) (id url description : string) : M Link :=
  getUserId context ;;;
  prisma_updateLink id url description.

(** Mutation.vote *)
Definition vote (context : Ctx) (linkId : string) : M Vote :=
  userId <-- getUserId context ;;
  linkExists <-- prisma_exists_vote userId linkId ;;
  if linkExists then throw ErrAlreadyVoted
  else prisma_createVote userId linkId.

End Resolvers.

(** [const where = args.filter ? { OR: [...] } : {}] *)
Definition feed_where (filter : option string) : LinkWhereInput :=
  match filter with
  | Some f => if truthy f
              then WhereOr [DescriptionContains f; UrlContains f]
              else WhereAll
  | None => WhereAll
  end.

(** Query.feed *)
Definition feed (context : Ctx) (args : FeedArgs) : M Feed :=
  let where_ := feed_where (filter_arg args) in
  links <-- prisma_links where_ (skip_arg args) (first_arg args) (orderBy_arg args) ;;
  count <-- prisma_links_count where_ ;;
  ret (mkFeed links count).

(** Query.link, as in the README's resolver
    [links.find(link => link.id === args.id)]: [undefined] is GraphQL's
    [null]. *)
Definition link (context : Ctx) (id : string) : M (option Link) :=
  st <-- get_store ;;
  ret (find_link st id).

(** Subscription.newLink: [subscribe] registers a listener on Prisma's
    link CREATED events; [resolve] projects each event to its node. *)
Definition newLinkSubscribe (context : Ctx) : M nat :=
  prisma_subscribe LinkCreatedKind.

Definition received (n : nat) (st : Store) : list Event :=
  match find (fun l => Nat.eqb (listener_id l) n) (listeners st) with
  | Some l => listener_queue l
  | None => []
  end.

Definition newLink_node (e : Event) : list Link :=
  match e with LinkCreated l => [l] | _ => [] end.

Definition newLink_payloads (n : nat) (st : Store) : list Link :=
  flat_map newLink_node (received n st).

(** Subscription.newVote: [subscribe] registers a listener on Prisma's
    vote CREATED events; [resolve] is the identity on the payload. *)
Definition newVoteSubscribe (context : Ctx) : M nat :=
  prisma_subscribe VoteCreatedKind.

Definition newVote_node (e : Event) : list Vote :=
  match e with VoteCreated v => [v] | _ => [] end.

Definition newVote_payloads (n : nat) (st : Store) : list Vote :=
  flat_map newVote_node (received n st).

(** ** Relation resolvers of the README ([Link.js], [User.js], [Vote.js])

    Each one refetches its parent by id through the Prisma client and
    follows one relation: [prisma.link({ id }).postedBy()],
    [prisma.link({ id }).votes()], [prisma.user({ id }).links()],
    [prisma.vote({ id }).link()] and [prisma.vote({ id }).user()].  A parent
    that no longer resolves gives [null] ([None]). *)

Definition find_user (st : Store) (id : string) : option User :=
  find (fun u => String.eqb (user_id u) id) (users st).

Definition find_vote (st : Store) (id : string) : option Vote :=
  find (fun v => String.eqb (vote_id v) id) (votes st).

(** Link.postedBy *)
Definition Link_postedBy (parent : Link) : M (option User) :=
  st <-- get_store ;;
  ret (match find_link st (link_id parent) with
       | Some l => match link_postedBy l with
                   | Some uid => find_user st uid
                   | None => None
                   end
       | None => None
       end).

(** Link.votes *)
Definition Link_votes (parent : Link) : M (option (list Vote)) :=
  st <-- get_store ;;
  ret (match find_link st (link_id parent) with
       | Some l => Some (filter (fun v => String.eqb (vote_link v) (link_id l)) (votes st))
       | None => None
       end).

(** User.links *)
Definition User_links (parent : User) : M (option (list Link)) :=
  st <-- get_store ;;
  ret (match find_user st (user_id parent) with
       | Some u => Some (filter (fun l => match link_postedBy l with
                                          | Some uid => String.eqb uid (user_id u)
                                          | None => false
                                          end) (links st))
       | None => None
       end).

(** Vote.link *)
Definition Vote_link (parent : Vote) : M (option Link) :=
  st <-- get_store ;;
  ret (match find_vote st (vote_id parent) with
       | Some v => find_link st (vote_link v)
       | None => None
       end).

(** Vote.user *)
Definition Vote_user (parent : Vote) : M (option User) :=
  st <-- get_store ;;
  ret (match find_vote st (vote_id parent) with
       | Some v => find_user st (vote_user v)
       | None => None
       end).

(** Every link and vote id was drawn from the id counter before its
    current value, as [createLink] and [createVote] draw them. *)
Definition drawn_below (n : nat) (id : string) : bool :=
  existsb (fun k => String.eqb id (HexString.of_nat k)) (seq 0 n).

Definition fresh_ids (st : Store) : bool :=
  forallb (fun l => drawn_below (next_id st) (link_id l)) (links st) &&
  forallb (fun v => drawn_below (next_id st) (vote_id v)) (votes st).

(** ** Serialized request sequences

    The server handles one GraphQL request after another; each request
    runs one resolver on the store the previous ones left.  The [link]
    query is left out: the Prisma server's [Query.js] has no such
    resolver. *)
Inductive Request :=
| ReqPost (ctx : Ctx) (url description : string)
| ReqSignup (ctx : Ctx) (email password name : string)
| ReqLogin (ctx : Ctx) (email password : string)
| ReqUpdateLink (ctx : Ctx) (id url description : string)
| ReqDeleteLink (ctx : Ctx) (id : string)
| ReqVote (ctx : Ctx) (linkId : string)
| ReqFeed (ctx : Ctx) (args : FeedArgs)
| ReqNewLink (ctx : Ctx)
| ReqNewVote (ctx : Ctx).

Section Requests.
Context `{TS : TokenService} `{PH : PasswordHasher}.

Definition serve (r : Request) (st : Store) : Store :=
  match r with
  | ReqPost ctx url description => snd (post ctx url description st)
  | ReqSignup ctx email password name => snd (signup ctx email password name st)
  | ReqLogin ctx email password => snd (login ctx email password st)
  | ReqUpdateLink ctx id url description => snd (updateLink ctx id url description st)
  | ReqDeleteLink ctx id => snd (deleteLink ctx id st)
  | ReqVote ctx linkId => snd (vote ctx linkId st)
  | ReqFeed ctx args => snd (feed ctx args st)
  | ReqNewLink ctx => snd (newLinkSubscribe ctx st)
  | ReqNewVote ctx => snd (newVoteSubscribe ctx st)
  end.

Definition serve_all (rs : list Request) (st : Store) : Store :=
  fold_left (fun st r => serve r st) rs st.

End Requests.

(** ** Concrete primitives for evaluation

    Stand-ins for [jsonwebtoken] and [bcryptjs] used to run the resolvers
    on concrete inputs: a token is the user id behind a ['#'] mark, a hash
    is the plaintext behind a ['$'] mark (the salt is ignored). *)
Definition toy_verify (t : string) : option string :=
  match t with
  | String c u => if Ascii.eqb c "#" then Some u else None
  | EmptyString => None
  end.

Definition toy_jwt : TokenService :=
  {| jwt_sign := fun u => String "#" u; jwt_verify := toy_verify |}.

Definition toy_bcrypt : PasswordHasher :=
  {| bcrypt_hash := fun p _ => String "$" p;
     bcrypt_compare := fun p h => String.eqb (String "$" p) h |}.


Definition alice : User := mkUser "u1" "Alice" "alice@example.com" "$secret".
Definition st0 : Store := mkStore [] [alice] [] [] 1 1.

(** The store after Alice posted one link with the first drawn id. *)
Definition st_posted : Store :=
  mkStore [mkLink "0x1" 1 "GraphQL" "https://graphql.org" (Some "u1")] [alice] [] [] 2 1.

(** ** Auxiliary lemmas *)

Lemma bind_inl {A B} (m : M A) (k : A -> M B) st e st' :
  m st = (inl e, st') -> bind m k st = (inl e, st').
Proof. intros H. unfold bind. now rewrite H. Qed.

Lemma bind_inr {A B} (m : M A) (k : A -> M B) st a st' :
  m st = (inr a, st') -> bind m k st = k a st'.
Proof. intros H. unfold bind. now rewrite H. Qed.

Lemma getUserId_store `{TokenService} ctx st :
  snd (getUserId ctx st) = st.
Proof.
  unfold getUserId.
  destruct (authorization ctx) as [a|]; [|reflexivity].
  destruct (truthy a); [|reflexivity].
  destruct (jwt_verify _); reflexivity.
Qed.

Lemma prefix_app (p t : string) : String.prefix p (p ++ t) = true.
Proof.
  induction p as [|c p IH]; simpl.
  - destruct t; reflexivity.
  - destruct (ascii_dec c c); [exact IH | congruence].
Qed.

Lemma substring_0_all (m : nat) (s : string) :
  String.length s <= m -> substring 0 m s = s.
Proof.
  revert m. induction s as [|c s IH]; intros m Hm; destruct m; simpl in *;
    try reflexivity; try lia.
  f_equal. apply IH. lia.
Qed.

Lemma substring_app (p t : string) :
  substring (String.length p) (String.length (p ++ t)) (p ++ t) = t.
Proof.
  remember (String.length (p ++ t)) as m eqn:Hm.
  assert (String.length t <= m) as Hle.
  { subst m. clear. induction p; simpl; lia. }
  clear Hm. induction p as [|c p IH]; simpl.
  - apply substring_0_all. exact Hle.
  - exact IH.
Qed.

Lemma replace_first_unfold (pat rep s : string) :
  replace_first pat rep s =
  if String.prefix pat s then rep ++ substring (String.length pat) (String.length s) s
  else match s with
       | EmptyString => EmptyString
       | String c r => String c (replace_first pat rep r)
       end.
Proof. destruct s; reflexivity. Qed.

Lemma replace_first_prefix (pat t : string) :
  replace_first pat "" (pat ++ t) = t.
Proof.
  rewrite replace_first_unfold, prefix_app, substring_app. reflexivity.
Qed.

Lemma contains_false_cons n c r :
  contains n (String c r) = false ->
  String.prefix n (String c r) = false /\ contains n r = false.
Proof. simpl. intros H. apply orb_false_iff in H. exact H. Qed.

Lemma replace_first_absent (pat rep s : string) :
  contains pat s = false -> replace_first pat rep s = s.
Proof.
  induction s as [|c r IH]; intros H.
  - rewrite replace_first_unfold.
    assert (Hp : String.prefix pat "" = false).
    { unfold contains in H. apply orb_false_iff in H. apply H. }
    rewrite Hp. reflexivity.
  - apply contains_false_cons in H as [H1 H2].
    rewrite replace_first_unfold, H1. f_equal. exact (IH H2).
Qed.

(** ** C1: the authentication gate *)

(** C1 (counterexample).  A header carrying a valid token without the
    ["Bearer "] prefix authenticates: [post] creates the link.  And a
    header whose token does not verify fails with the verification error
    of [jwt.verify], not with ['Not authenticated']. *)
Lemma C1_counterexample :
  let st1 := snd (@post toy_jwt (mkCtx (Some "#u1")) "https://graphql.org" "GraphQL" st0) in
  (exists l, @post toy_jwt (mkCtx (Some "#u1")) "https://graphql.org" "GraphQL" st0
             = (inr l, st1)) /\
  st1 <> st0 /\
  @post toy_jwt (mkCtx (Some "Bearer forged")) "https://graphql.org" "GraphQL" st0
    = (inl ErrJwt, st0).
Proof.
  cbv zeta. split; [eexists; compute; reflexivity|].
  split; [compute; discriminate|reflexivity].
Qed.

Lemma getUserId_rejects `{TokenService} ctx st e :
  (authorization ctx = None /\ e = ErrNotAuthenticated) \/
  (authorization ctx = Some "" /\ e = ErrNotAuthenticated) \/
  (exists a, authorization ctx = Some a /\ a <> "" /\
             jwt_verify (replace_first "Bearer " "" a) = None /\ e = ErrJwt) ->
  getUserId ctx st = (inl e, st).
Proof.
  unfold getUserId.
  intros [[Ha ->] | [[Ha ->] | (a & Ha & Hne & Hv & ->)]]; rewrite Ha;
    try reflexivity.
  assert (Ht : truthy a = true) by (destruct a; [congruence | reflexivity]).
  rewrite Ht. cbv zeta. rewrite Hv. reflexivity.
Qed.

(** C1 (amended).  Every protected mutation ([post], [updateLink],
    [deleteLink], [vote]) fails with ['Not authenticated'] when the
    Authorization header is absent or empty, and with the verification
    error of [jwt.verify] when the header, once its first ["Bearer "] is
    removed, does not verify; in each case the store, and with it every
    listener queue, is left exactly as it was.  A non-empty header with no
    ["Bearer "] in it is verified as a whole and accepted when it verifies. *)
Theorem C1_auth_gate `{TokenService} ctx st e url description id linkId :
  (authorization ctx = None /\ e = ErrNotAuthenticated) \/
  (authorization ctx = Some "" /\ e = ErrNotAuthenticated) \/
  (exists a, authorization ctx = Some a /\ a <> "" /\
             jwt_verify (replace_first "Bearer " "" a) = None /\ e = ErrJwt) ->
  (post ctx url description st = (inl e, st) /\
   updateLink ctx id url description st = (inl e, st) /\
   deleteLink ctx id st = (inl e, st) /\
   vote ctx linkId st = (inl e, st)) /\
  (forall a u, a <> "" -> contains "Bearer " a = false -> jwt_verify a = Some u ->
     getUserId (mkCtx (Some a)) st = (inr u, st)).
Proof.
  intros Hauth. apply (getUserId_rejects ctx st e) in Hauth.
  split.
  - unfold post, updateLink, deleteLink, vote.
    repeat split; apply bind_inl; exact Hauth.
  - intros a u Hne Hc Hv. unfold getUserId. cbn [authorization].
    assert (Ht : truthy a = true) by (destruct a; [congruence | reflexivity]).
    rewrite Ht. cbv zeta.
    rewrite (replace_first_absent _ _ _ Hc), Hv. reflexivity.
Qed.

Lemma C1_auth_gate_witness :
  (authorization (mkCtx (Some "Bearer forged")) = None /\ ErrJwt = ErrNotAuthenticated \/
   authorization (mkCtx (Some "Bearer forged")) = Some "" /\ ErrJwt = ErrNotAuthenticated \/
   exists a, authorization (mkCtx (Some "Bearer forged")) = Some a /\ a <> "" /\
             toy_verify (replace_first "Bearer " "" a) = None /\ ErrJwt = ErrJwt) /\
  @post toy_jwt (mkCtx (Some "Bearer forged")) "u" "d" st0 = (inl ErrJwt, st0).
Proof.
  assert (H : authorization (mkCtx (Some "Bearer forged")) = None /\ ErrJwt = ErrNotAuthenticated \/
   authorization (mkCtx (Some "Bearer forged")) = Some "" /\ ErrJwt = ErrNotAuthenticated \/
   exists a, authorization (mkCtx (Some "Bearer forged")) = Some a /\ a <> "" /\
             toy_verify (replace_first "Bearer " "" a) = None /\ ErrJwt = ErrJwt).
  { right. right. exists "Bearer forged". split; [reflexivity|].
    split; [discriminate|]. split; reflexivity. }
  split; [exact H|].
  exact (proj1 (proj1 (@C1_auth_gate toy_jwt _ st0 ErrJwt "u" "d" "x" "x" H))).
Defined.

(** ** C2: at most one vote per (user, link) *)

Definition at_most_one_vote (st : Store) : Prop :=
  forall uid lid, length (filter (vote_matches uid lid) (votes st)) <= 1.

(** A serialized sequence of [vote] calls, each with its own request
    context and link id. *)
Fixpoint vote_attempts `{TokenService} (attempts : list (Ctx * string)) (st : Store)
  : Store :=
  match attempts with
  | [] => st
  | (ctx, linkId) :: rest => vote_attempts rest (snd (vote ctx linkId st))
  end.

Lemma prisma_createVote_result uid lid st :
  prisma_createVote uid lid st =
  if user_exists st uid && link_exists st lid then
    let v := mkVote (HexString.of_nat (next_id st)) uid lid in
    (inr v,
     set_listeners
       (set_votes (mkStore (links st) (users st) (votes st) (listeners st)
                     (S (next_id st)) (salt_seed st)) (votes st ++ [v]))
       (map (push (VoteCreated v)) (listeners st)))
  else (inl ErrNodeNotFound, st).
Proof.
  unfold prisma_createVote, bind, get_store, ret, throw.
  destruct (user_exists st uid && link_exists st lid); reflexivity.
Qed.

Lemma prisma_exists_vote_result uid lid st :
  prisma_exists_vote uid lid st = (inr (existsb (vote_matches uid lid) (votes st)), st).
Proof. reflexivity. Qed.

Lemma vote_matches_eq uid lid v :
  vote_matches uid lid v = true -> vote_user v = uid /\ vote_link v = lid.
Proof.
  unfold vote_matches. rewrite andb_true_iff, !String.eqb_eq. tauto.
Qed.

Lemma existsb_false_filter {A} (f : A -> bool) xs :
  existsb f xs = false -> filter f xs = [].
Proof.
  induction xs as [|x xs IH]; simpl; [reflexivity|].
  intros H. apply orb_false_iff in H as [H1 H2]. rewrite H1. exact (IH H2).
Qed.

Lemma existsb_false_filter_inv {A} (f : A -> bool) xs :
  (forall x, In x xs -> f x = false) -> existsb f xs = false.
Proof.
  induction xs as [|x xs IH]; simpl; intros H; [reflexivity|].
  rewrite (H x (or_introl eq_refl)). apply IH. intros y Hy. apply H. right. exact Hy.
Qed.

Lemma add_vote_at_most_one st vs v :
  at_most_one_vote st ->
  existsb (vote_matches (vote_user v) (vote_link v)) (votes st) = false ->
  vs = (votes st ++ [v])%list ->
  forall uid lid, length (filter (vote_matches uid lid) vs) <= 1.
Proof.
  intros Hinv Hnone -> uid lid.
  rewrite filter_app, length_app. simpl.
  destruct (vote_matches uid lid v) eqn:Hm; simpl.
  - apply vote_matches_eq in Hm as [<- <-].
    rewrite (existsb_false_filter _ _ Hnone). simpl. lia.
  - specialize (Hinv uid lid). lia.
Qed.

Lemma vote_preserves `{TokenService} ctx linkId st :
  at_most_one_vote st -> at_most_one_vote (snd (vote ctx linkId st)).
Proof.
  intros Hinv. unfold vote.
  destruct (getUserId ctx st) as [[e|userId] st'] eqn:Hg;
    pose proof (getUserId_store ctx st) as Hs; rewrite Hg in Hs; simpl in Hs; subst st'.
  - rewrite (bind_inl _ _ _ _ _ Hg). exact Hinv.
  - rewrite (bind_inr _ _ _ _ _ Hg).
    rewrite (bind_inr _ _ _ _ _ (prisma_exists_vote_result userId linkId st)).
    destruct (existsb (vote_matches userId linkId) (votes st)) eqn:He;
      [exact Hinv|].
    rewrite prisma_createVote_result.
    destruct (user_exists st userId && link_exists st linkId); [|exact Hinv].
    simpl. intros uid lid.
    apply (add_vote_at_most_one st _ (mkVote (HexString.of_nat (next_id st)) userId linkId));
      [exact Hinv | exact He | reflexivity].
Qed.

Lemma vote_attempts_preserve `{TokenService} attempts st :
  at_most_one_vote st -> at_most_one_vote (vote_attempts attempts st).
Proof.
  revert st. induction attempts as [|[ctx linkId] rest IH]; intros st Hinv; simpl.
  - exact Hinv.
  - apply IH, vote_preserves, Hinv.
Qed.

(** C2.  From a store with at most one Vote per (user, link) pair, every
    serialized sequence of [vote] attempts keeps at most one; and a single
    [vote] by an authenticated caller fails with [Already voted] leaving
    the store unchanged when a Vote for the pair exists, and otherwise
    (for an existing user and link) creates exactly one Vote connecting
    the caller to the link. *)
Theorem C2_vote_at_most_one `{TokenService} ctx linkId st :
  at_most_one_vote st ->
  (forall attempts, at_most_one_vote (vote_attempts attempts st)) /\
  (forall userId, getUserId ctx st = (inr userId, st) ->
     (existsb (vote_matches userId linkId) (votes st) = true ->
        vote ctx linkId st = (inl ErrAlreadyVoted, st)) /\
     (existsb (vote_matches userId linkId) (votes st) = false ->
      user_exists st userId = true -> link_exists st linkId = true ->
        exists v, fst (vote ctx linkId st) = inr v /\
                  vote_user v = userId /\ vote_link v = linkId /\
                  votes (snd (vote ctx linkId st)) = (votes st ++ [v])%list)).
Proof.
  intros Hinv. split.
  - intros attempts. apply vote_attempts_preserve, Hinv.
  - intros userId Hg. unfold vote.
    rewrite (bind_inr _ _ _ _ _ Hg).
    rewrite (bind_inr _ _ _ _ _ (prisma_exists_vote_result userId linkId st)).
    split.
    + intros He. rewrite He. reflexivity.
    + intros He Hu Hl. rewrite He, prisma_createVote_result, Hu, Hl. simpl.
      eexists. repeat split; reflexivity.
Qed.

Lemma C2_vote_at_most_one_witness :
  at_most_one_vote st_posted /\
  (exists v,
     fst (@vote toy_jwt (mkCtx (Some "Bearer #u1")) "0x1" st_posted) = inr v /\
     vote_user v = "u1" /\ vote_link v = "0x1" /\
     votes (snd (@vote toy_jwt (mkCtx (Some "Bearer #u1")) "0x1" st_posted))
       = (votes st_posted ++ [v])%list) /\
  at_most_one_vote (snd (@vote toy_jwt (mkCtx (Some "Bearer #u1")) "0x1" st_posted)) /\
  @vote toy_jwt (mkCtx (Some "Bearer #u1")) "0x1"
    (snd (@vote toy_jwt (mkCtx (Some "Bearer #u1")) "0x1" st_posted))
  = (inl ErrAlreadyVoted, snd (@vote toy_jwt (mkCtx (Some "Bearer #u1")) "0x1" st_posted)) /\
  length (votes (@vote_attempts toy_jwt
                   [(mkCtx (Some "Bearer #u1"), "0x1");
                    (mkCtx (Some "Bearer #u1"), "0x1")] st_posted)) = 1.
Proof.
  assert (H0 : at_most_one_vote st_posted) by (intros uid lid; simpl; lia).
  assert (Hg : @getUserId toy_jwt (mkCtx (Some "Bearer #u1")) st_posted = (inr "u1", st_posted))
    by reflexivity.
  assert (He : existsb (vote_matches "u1" "0x1") (votes st_posted) = false) by reflexivity.
  assert (Hu : user_exists st_posted "u1" = true) by reflexivity.
  assert (Hl : link_exists st_posted "0x1" = true) by reflexivity.
  pose proof (@C2_vote_at_most_one toy_jwt (mkCtx (Some "Bearer #u1")) "0x1" st_posted H0)
    as [Hall Hone].
  assert (H1 : at_most_one_vote
                 (snd (@vote toy_jwt (mkCtx (Some "Bearer #u1")) "0x1" st_posted)))
    by exact (Hall [(mkCtx (Some "Bearer #u1"), "0x1")]).
  set (st1 := snd (@vote toy_jwt (mkCtx (Some "Bearer #u1")) "0x1" st_posted)) in *.
  assert (Hg1 : @getUserId toy_jwt (mkCtx (Some "Bearer #u1")) st1 = (inr "u1", st1))
    by reflexivity.
  assert (He1 : existsb (vote_matches "u1" "0x1") (votes st1) = true) by reflexivity.
  split; [exact H0|]. split; [exact (proj2 (Hone "u1" Hg) He Hu Hl)|].
  split; [exact H1|]. split.
  - exact (proj1 (proj2 (@C2_vote_at_most_one toy_jwt (mkCtx (Some "Bearer #u1")) "0x1"
             st1 H1) "u1" Hg1) He1).
  - vm_compute. reflexivity.
Defined.

(** ** C3, C4, C10: [feed] *)

(** Substring in the sense of the spec. *)
Definition is_substring (n s : string) : Prop := exists p q, s = p ++ n ++ q.

Lemma prefix_spec (n s : string) :
  String.prefix n s = true <-> exists q, s = n ++ q.
Proof.
  revert s. induction n as [|a n IH]; intros s.
  - split; [intros _; exists s; reflexivity | intros _; destruct s; reflexivity].
  - destruct s as [|b s]; simpl.
    + split; [discriminate | intros [q Hq]; discriminate].
    + destruct (ascii_dec a b) as [<-|Hab].
      * rewrite IH. split; intros [q Hq]; exists q; congruence.
      * split; [discriminate | intros [q Hq]; congruence].
Qed.

Lemma contains_unfold (n s : string) :
  contains n s =
  String.prefix n s || match s with EmptyString => false | String _ r => contains n r end.
Proof. destruct s; reflexivity. Qed.

Lemma contains_spec (n s : string) : contains n s = true <-> is_substring n s.
Proof.
  unfold is_substring.
  induction s as [|c r IH].
  - rewrite contains_unfold, orb_false_r, prefix_spec. split.
    + intros [q Hq]. exists "", q. exact Hq.
    + intros [p [q Hpq]]. destruct p; [exists q; exact Hpq | discriminate].
  - rewrite contains_unfold, orb_true_iff, prefix_spec, IH. split.
    + intros [[q Hq] | [p [q Hpq]]].
      * exists "", q. exact Hq.
      * exists (String c p), q. rewrite Hpq. reflexivity.
    + intros [p [q Hpq]]. destruct p as [|c' p].
      * left. exists q. exact Hpq.
      * right. exists p, q. simpl in Hpq. congruence.
Qed.

Lemma contains_empty (s : string) : contains "" s = true.
Proof. destruct s; reflexivity. Qed.

(** The filter of the spec: description or url contains the filter
    string when one is given, every link otherwise. *)
Definition filter_matches (filter : option string) (l : Link) : bool :=
  match filter with
  | Some f => contains f (link_description l) || contains f (link_url l)
  | None => true
  end.

Lemma feed_result ctx args st :
  feed ctx args st =
  (inr (mkFeed
          (take_first (first_arg args)
             (skipn (match skip_arg args with Some k => k | None => 0 end)
                (order_links (orderBy_arg args)
                   (filter (filter_matches (filter_arg args)) (links st)))))
          (length (filter (filter_matches (filter_arg args)) (links st)))),
   st).
Proof.
  assert (Hw : forall f, filter (where_eval (feed_where f)) (links st)
                         = filter (filter_matches f) (links st)).
  { intros f. apply filter_ext. intros l.
    destruct f as [[|c r]|]; simpl; try reflexivity.
    - rewrite !contains_empty. reflexivity.
    - rewrite orb_false_r. reflexivity. }
  unfold feed, bind, prisma_links, prisma_links_count, get_store, ret.
  simpl. rewrite !Hw. reflexivity.
Qed.

Lemma filter_matches_spec f l :
  filter_matches (Some f) l = true <->
  is_substring f (link_description l) \/ is_substring f (link_url l).
Proof. simpl. rewrite orb_true_iff, !contains_spec. reflexivity. Qed.

(** C3.  For every store and filter string, whatever the request's
    Authorization header, [feed] succeeds without touching the store and
    returns exactly the links whose description or url contains the
    filter string (case-sensitive substring, either field sufficing). *)
Theorem C3_feed_filter ctx f st :
  exists ls,
    feed ctx (mkFeedArgs (Some f) None None None) st = (inr (mkFeed ls (length ls)), st) /\
    forall l, In l ls <->
              In l (links st) /\
              (is_substring f (link_description l) \/ is_substring f (link_url l)).
Proof.
  exists (filter (filter_matches (Some f)) (links st)). split.
  - rewrite feed_result. reflexivity.
  - intros l. rewrite filter_In, filter_matches_spec. reflexivity.
Qed.

(** C4.  For every store and arguments, [feed] returns as [count] the
    number of links matching the filter, whatever [skip] and [first] are;
    its [links] has at most [first] elements when [first] is given and is
    a prefix of the ordered matching links from offset [skip] on. *)
Theorem C4_feed_pagination ctx args st :
  exists r, feed ctx args st = (inr r, st) /\
    feed_count r = length (filter (filter_matches (filter_arg args)) (links st)) /\
    (forall n, first_arg args = Some n -> length (feed_links r) <= n) /\
    exists rest,
      skipn (match skip_arg args with Some k => k | None => 0 end)
        (order_links (orderBy_arg args)
           (filter (filter_matches (filter_arg args)) (links st)))
      = (feed_links r ++ rest)%list.
Proof.
  rewrite feed_result. eexists. split; [reflexivity|]. simpl.
  split; [reflexivity|]. split.
  - intros n Hn. rewrite Hn. simpl. rewrite length_firstn. lia.
  - destruct (first_arg args) as [n|]; simpl.
    + eexists. symmetry. apply firstn_skipn.
    + exists []. rewrite app_nil_r. reflexivity.
Qed.

(** C10.  [feed] with the empty string as filter gives the same result
    and store as [feed] without a filter, for every store, context, skip,
    first and orderBy. *)
Theorem C10_feed_empty_filter ctx skip first orderBy st :
  feed ctx (mkFeedArgs (Some "") skip first orderBy) st =
  feed ctx (mkFeedArgs None skip first orderBy) st.
Proof. reflexivity. Qed.

(** ** C5: [link] by id *)

Lemma NoDup_map_inj {A B} (f : A -> B) xs a b :
  NoDup (map f xs) -> In a xs -> In b xs -> f a = f b -> a = b.
Proof.
  induction xs as [|x xs IH]; simpl; [tauto|].
  intros Hnd Ha Hb Hf. inversion Hnd as [|? ? Hnin Hnd']; subst.
  destruct Ha as [<-|Ha], Hb as [<-|Hb]; auto.
  - exfalso. apply Hnin. rewrite Hf. apply in_map, Hb.
  - exfalso. apply Hnin. rewrite <- Hf. apply in_map, Ha.
Qed.

(** C5.  When link ids are unique, [link] by id never fails and leaves
    the store as it is; it returns the link with that id when there is
    one, and [null] exactly when no link has that id. *)
Theorem C5_link_query ctx id st :
  NoDup (map link_id (links st)) ->
  exists r, link ctx id st = (inr r, st) /\
    (forall l, r = Some l <-> In l (links st) /\ link_id l = id) /\
    (r = None <-> forall l, In l (links st) -> link_id l <> id).
Proof.
  intros Hnd. exists (find_link st id). split; [reflexivity|].
  unfold find_link. split.
  - intros l. split.
    + intros Hf. apply find_some in Hf as [Hin Heq].
      apply String.eqb_eq in Heq. auto.
    + intros [Hin Hid].
      destruct (find (fun l => String.eqb (link_id l) id) (links st)) as [l'|] eqn:Hf.
      * apply find_some in Hf as [Hin' Heq]. apply String.eqb_eq in Heq.
        f_equal. apply (NoDup_map_inj link_id (links st)); auto. congruence.
      * pose proof (find_none _ _ Hf l Hin) as Hne. simpl in Hne.
        apply String.eqb_neq in Hne. contradiction.
  - split.
    + intros Hf l Hin. pose proof (find_none _ _ Hf l Hin) as Hne.
      apply String.eqb_neq in Hne. exact Hne.
    + intros Hall.
      destruct (find (fun l => String.eqb (link_id l) id) (links st)) as [l'|] eqn:Hf;
        [|reflexivity].
      apply find_some in Hf as [Hin' Heq]. apply String.eqb_eq in Heq.
      exfalso. exact (Hall l' Hin' Heq).
Qed.

Definition st_links : Store :=
  mkStore [mkLink "l1" 0 "GraphQL docs" "https://graphql.org" (Some "u1")]
          [alice] [] [] 2 1.

Lemma C5_link_query_witness :
  NoDup (map link_id (links st_links)) /\
  exists r, link (mkCtx None) "l1" st_links = (inr r, st_links) /\
    (forall l, r = Some l <-> In l (links st_links) /\ link_id l = "l1") /\
    (r = None <-> forall l, In l (links st_links) -> link_id l <> "l1").
Proof.
  assert (H : NoDup (map link_id (links st_links))).
  { simpl. constructor; [simpl; tauto | constructor]. }
  split; [exact H|]. exact (C5_link_query (mkCtx None) "l1" st_links H).
Defined.

(** ** C6, C7: [signup] and [login] *)

Section Auth.
Context `{TS : TokenService} `{PH : PasswordHasher}.

Definition email_taken (st : Store) (email : string) : bool :=
  existsb (fun u => String.eqb (user_email u) email) (users st).

Lemma signup_result ctx email password name st :
  signup ctx email password name st =
  if email_taken st email
  then (inl ErrUniqueEmail,
        mkStore (links st) (users st) (votes st) (listeners st) (next_id st) (S (salt_seed st)))
  else
    let u := mkUser (HexString.of_nat (next_id st)) name email
                    (bcrypt_hash password (salt_seed st)) in
    (inr (mkAuthPayload (jwt_sign (user_id u)) u),
     mkStore (links st) (users st ++ [u]) (votes st)
             (map (push (UserCreated u)) (listeners st)) (S (next_id st)) (S (salt_seed st))).
Proof.
  unfold email_taken, signup, prisma_createUser, bind, draw_salt, get_store, ret, throw,
    fresh, modify, publish, set_users, set_listeners. simpl.
  destruct (existsb _ (users st)); reflexivity.
Qed.

Lemma login_result ctx email password st :
  login ctx email password st =
  match find (fun u => String.eqb (user_email u) email) (users st) with
  | None => (inl ErrNoSuchUser, st)
  | Some user =>
      if bcrypt_compare password (user_password user)
      then (inr (mkAuthPayload (jwt_sign (user_id user)) user), st)
      else (inl ErrInvalidPassword, st)
  end.
Proof.
  unfold login, prisma_user_by_email, bind, get_store, ret, throw.
  destruct (find _ (users st)) as [user|]; [|reflexivity].
  destruct (bcrypt_compare password (user_password user)); reflexivity.
Qed.

Lemma post_users ctx url description st :
  users (snd (post ctx url description st)) = users st.
Proof.
  unfold post. destruct (getUserId ctx st) as [[e|uid] st'] eqn:Hg;
    pose proof (getUserId_store ctx st) as Hs; rewrite Hg in Hs; simpl in Hs; subst st'.
  - rewrite (bind_inl _ _ _ _ _ Hg). reflexivity.
  - rewrite (bind_inr _ _ _ _ _ Hg).
    unfold prisma_createLink, bind, get_store, ret, throw, fresh, modify, publish.
    destruct (user_exists st uid); reflexivity.
Qed.

Lemma updateLink_users ctx id url description st :
  users (snd (updateLink ctx id url description st)) = users st.
Proof.
  unfold updateLink. destruct (getUserId ctx st) as [[e|uid] st'] eqn:Hg;
    pose proof (getUserId_store ctx st) as Hs; rewrite Hg in Hs; simpl in Hs; subst st'.
  - rewrite (bind_inl _ _ _ _ _ Hg). reflexivity.
  - rewrite (bind_inr _ _ _ _ _ Hg).
    unfold prisma_updateLink, bind, get_store, ret, throw, modify, publish.
    destruct (find_link st id); reflexivity.
Qed.

Lemma deleteLink_users ctx id st :
  users (snd (deleteLink ctx id st)) = users st.
Proof.
  unfold deleteLink. destruct (getUserId ctx st) as [[e|uid] st'] eqn:Hg;
    pose proof (getUserId_store ctx st) as Hs; rewrite Hg in Hs; simpl in Hs; subst st'.
  - rewrite (bind_inl _ _ _ _ _ Hg). reflexivity.
  - rewrite (bind_inr _ _ _ _ _ Hg). reflexivity.
Qed.

Lemma vote_users ctx linkId st :
  users (snd (vote ctx linkId st)) = users st.
Proof.
  unfold vote. destruct (getUserId ctx st) as [[e|uid] st'] eqn:Hg;
    pose proof (getUserId_store ctx st) as Hs; rewrite Hg in Hs; simpl in Hs; subst st'.
  - rewrite (bind_inl _ _ _ _ _ Hg). reflexivity.
  - rewrite (bind_inr _ _ _ _ _ Hg),
      (bind_inr _ _ _ _ _ (prisma_exists_vote_result uid linkId st)).
    destruct (existsb (vote_matches uid linkId) (votes st)); [reflexivity|].
    rewrite prisma_createVote_result.
    destruct (user_exists st uid && link_exists st linkId); reflexivity.
Qed.

(** Users are only ever added, at the end: no request removes or changes
    one. *)
Lemma serve_users r st : exists extra, users (serve r st) = (users st ++ extra)%list.
Proof.
  destruct r as [ctx url description | ctx email password name | ctx email password
                | ctx id url description | ctx id | ctx linkId | ctx args | ctx | ctx];
    cbn [serve].
  - exists []. rewrite app_nil_r. apply post_users.
  - rewrite signup_result. destruct (email_taken st email).
    + exists []. rewrite app_nil_r. reflexivity.
    + eexists. reflexivity.
  - exists []. rewrite app_nil_r, login_result.
    destruct (find _ (users st)) as [u|]; [|reflexivity].
    destruct (bcrypt_compare password (user_password u)); reflexivity.
  - exists []. rewrite app_nil_r. apply updateLink_users.
  - exists []. rewrite app_nil_r. apply deleteLink_users.
  - exists []. rewrite app_nil_r. apply vote_users.
  - exists []. rewrite app_nil_r, feed_result. reflexivity.
  - exists []. rewrite app_nil_r. reflexivity.
  - exists []. rewrite app_nil_r. reflexivity.
Qed.

Lemma serve_all_users rs st : exists extra, users (serve_all rs st) = (users st ++ extra)%list.
Proof.
  unfold serve_all. revert st. induction rs as [|r rs IH]; intros st; simpl.
  - exists []. rewrite app_nil_r. reflexivity.
  - destruct (serve_users r st) as [e1 H1]. destruct (IH (serve r st)) as [e2 H2].
    exists (e1 ++ e2)%list. rewrite H2, H1, app_assoc. reflexivity.
Qed.

Lemma signup_success ctx email password name st p st1 :
  signup ctx email password name st = (inr p, st1) ->
  email_taken st email = false /\
  p = mkAuthPayload (jwt_sign (HexString.of_nat (next_id st)))
        (mkUser (HexString.of_nat (next_id st)) name email (bcrypt_hash password (salt_seed st))) /\
  users st1 = (users st ++ [payload_user p])%list.
Proof.
  rewrite signup_result. destruct (email_taken st email); [discriminate|].
  intros Hr. inversion Hr; subst. repeat split; reflexivity.
Qed.

(** C7.  A successful [signup] adds exactly one User to the store, whose
    password field is the bcrypt hash of the supplied plaintext under the
    salt drawn for this call (email and name as supplied), and returns
    that User with a token signed for its id. *)
Theorem C7_signup_stores_hash ctx email password name st p st1 :
  signup ctx email password name st = (inr p, st1) ->
  users st1 = (users st ++ [payload_user p])%list /\
  user_password (payload_user p) = bcrypt_hash password (salt_seed st) /\
  user_email (payload_user p) = email /\
  user_name (payload_user p) = name /\
  payload_token p = jwt_sign (user_id (payload_user p)).
Proof.
  rewrite signup_result. destruct (email_taken st email); [discriminate|].
  intros H. inversion H; subst. repeat split; reflexivity.
Qed.

Lemma find_app_last {A} (f : A -> bool) xs x :
  existsb f xs = false -> f x = true -> find f (xs ++ [x]) = Some x.
Proof.
  induction xs as [|y xs IH]; simpl; intros Hn Hx.
  - rewrite Hx. reflexivity.
  - apply orb_false_iff in Hn as [Hy Hn]. rewrite Hy. exact (IH Hn Hx).
Qed.


Lemma existsb_find_none {A} (f : A -> bool) xs :
  existsb f xs = false -> find f xs = None.
Proof.
  induction xs as [|y xs IH]; simpl; [reflexivity|].
  intros Hn. apply orb_false_iff in Hn as [Hy Hn]. rewrite Hy. exact (IH Hn).
Qed.

Lemma existsb_find_none_rev {A} (f : A -> bool) xs :
  find f xs = None -> existsb f xs = false.
Proof.
  induction xs as [|y xs IH]; simpl; [reflexivity|].
  destruct (f y); [discriminate | exact IH].
Qed.


End Auth.



Definition later_requests : list Request :=
  [ReqPost (mkCtx (Some "Bearer #u1")) "https://graphql.org" "GraphQL";
   ReqSignup (mkCtx None) "carol@example.com" "pw" "Carol";
   ReqLogin (mkCtx None) "alice@example.com" "secret"].




Lemma C7_signup_stores_hash_witness :
  exists p st1,
    @signup toy_jwt toy_bcrypt (mkCtx None) "bob@example.com" "hunter2" "Bob" st0
      = (inr p, st1) /\
    user_password (payload_user p) = "$hunter2".
Proof.
  do 2 eexists. split; [compute; reflexivity|].
  exact (proj1 (proj2 (@C7_signup_stores_hash toy_jwt toy_bcrypt
           (mkCtx None) "bob@example.com" "hunter2" "Bob" st0 _ _ eq_refl))).
Defined.

(** ** C8: [updateLink] and [deleteLink] *)

Lemma prisma_updateLink_result id url description st :
  prisma_updateLink id url description st =
  match find_link st id with
  | None => (inl ErrNodeNotFound, st)
  | Some l =>
      let l' := mkLink (link_id l) (link_createdAt l) description url (link_postedBy l) in
      (inr l', set_listeners (set_links st (map (replace_link id l') (links st)))
                 (map (push (LinkUpdated l')) (listeners st)))
  end.
Proof.
  unfold prisma_updateLink, bind, get_store, ret, throw, modify, publish.
  destruct (find_link st id); reflexivity.
Qed.

Lemma prisma_deleteLink_result id st :
  prisma_deleteLink (JObj [("id", JStr id)]) st =
  match find_link st id with
  | None => (inl ErrNodeNotFound, st)
  | Some l =>
      let st' := set_links st (filter (fun l => negb (String.eqb (link_id l) id)) (links st)) in
      (inr l, set_listeners st' (map (push (LinkDeleted l)) (listeners st')))
  end.
Proof.
  unfold prisma_deleteLink. cbv beta iota. rewrite String.eqb_refl.
  unfold bind, get_store, ret, throw, modify, publish.
  destruct (find_link st id); reflexivity.
Qed.

Lemma prisma_deleteLink_nested w st :
  prisma_deleteLink (JObj [("where", w)]) st = (inl ErrInvalidInput, st).
Proof. destruct w; reflexivity. Qed.

Lemma deleteLink_store `{TokenService} ctx id st :
  deleteLink ctx id st =
  match getUserId ctx st with
  | (inl e, _) => (inl e, st)
  | (inr _, _) => (inl ErrInvalidInput, st)
  end.
Proof.
  unfold deleteLink.
  destruct (getUserId ctx st) as [[e|uid] st'] eqn:Hg;
    pose proof (getUserId_store ctx st) as Hs; rewrite Hg in Hs; simpl in Hs; subst st'.
  - exact (bind_inl _ _ _ _ _ Hg).
  - rewrite (bind_inr _ _ _ _ _ Hg). apply prisma_deleteLink_nested.
Qed.

(** C8 (code bug).  [deleteLink] hands Prisma [{ where: { id } }] where
    the client expects the [LinkWhereUniqueInput] [{ id }] itself, so for
    every authenticated caller and every id, existing or not, it fails
    with an input validation error and deletes nothing.  [updateLink] does
    what the spec says: for every authenticated caller, whoever posted the
    link, it updates the link with that id and returns it, and fails with
    Prisma's not-found error, leaving the store unchanged, on an id that
    resolves to no link. *)
Theorem C8_deleteLink_code_bug `{TokenService} ctx userId id url description st :
  getUserId ctx st = (inr userId, st) ->
  deleteLink ctx id st = (inl ErrInvalidInput, st) /\
  (forall l, find_link st id = Some l ->
     let l' := mkLink (link_id l) (link_createdAt l) description url (link_postedBy l) in
     exists st1, updateLink ctx id url description st = (inr l', st1) /\
                 links st1 = map (replace_link id l') (links st)) /\
  (find_link st id = None ->
     updateLink ctx id url description st = (inl ErrNodeNotFound, st)).
Proof.
  intros Hg. split.
  - rewrite deleteLink_store, Hg. reflexivity.
  - unfold updateLink. rewrite (bind_inr _ _ _ _ _ Hg), prisma_updateLink_result. split.
    + intros l Hl. rewrite Hl. eexists. split; reflexivity.
    + intros Hl. rewrite Hl. reflexivity.
Qed.

Lemma C8_deleteLink_code_bug_witness :
  @getUserId toy_jwt (mkCtx (Some "Bearer #u1")) st_links = (inr "u1", st_links) /\
  find_link st_links "l1" <> None /\
  @deleteLink toy_jwt (mkCtx (Some "Bearer #u1")) "l1" st_links = (inl ErrInvalidInput, st_links).
Proof.
  assert (Hg : @getUserId toy_jwt (mkCtx (Some "Bearer #u1")) st_links = (inr "u1", st_links))
    by reflexivity.
  split; [exact Hg|]. split; [discriminate|].
  exact (proj1 (@C8_deleteLink_code_bug toy_jwt _ "u1" "l1"
           "https://www.prisma.io" "Prisma" st_links Hg)).
Defined.

(** ** C9: [newLink] delivery *)

(** Listener ids are below the id counter, so a new registration gets an
    id no listener has. *)
Definition listeners_wf (st : Store) : Prop :=
  Forall (fun x => listener_id x < next_id st) (listeners st).

Definition by_listener_id (n : nat) (x : Listener) : bool := Nat.eqb (listener_id x) n.

Lemma prisma_createLink_result uid url description st :
  prisma_createLink url description (Some uid) st =
  if user_exists st uid then
    let l := mkLink (HexString.of_nat (next_id st)) (next_id st) description url (Some uid) in
    (inr l,
     set_listeners
       (set_links (mkStore (links st) (users st) (votes st) (listeners st)
                     (S (next_id st)) (salt_seed st)) (links st ++ [l]))
       (map (push (LinkCreated l)) (listeners st)))
  else (inl ErrNodeNotFound, st).
Proof.
  unfold prisma_createLink, bind, get_store, ret, throw, fresh, modify, publish.
  destruct (user_exists st uid); reflexivity.
Qed.

Lemma post_success `{TokenService} ctx url description st l st1 :
  post ctx url description st = (inr l, st1) ->
  listeners st1 = map (push (LinkCreated l)) (listeners st) /\
  next_id st1 = S (next_id st).
Proof.
  unfold post. destruct (getUserId ctx st) as [[e|uid] st'] eqn:Hg;
    pose proof (getUserId_store ctx st) as Hs; rewrite Hg in Hs; simpl in Hs; subst st'.
  - rewrite (bind_inl _ _ _ _ _ Hg). discriminate.
  - rewrite (bind_inr _ _ _ _ _ Hg), prisma_createLink_result.
    destruct (user_exists st uid); [|discriminate].
    intros Hr. inversion Hr; subst. split; reflexivity.
Qed.

Lemma subscribe_result ctx st n st1 :
  newLinkSubscribe ctx st = (inr n, st1) ->
  n = next_id st /\
  listeners st1 = (listeners st ++ [mkListener n LinkCreatedKind []])%list /\
  next_id st1 = S (next_id st).
Proof.
  unfold newLinkSubscribe, prisma_subscribe, bind, fresh, modify, ret.
  intros H. inversion H; subst. repeat split; reflexivity.
Qed.

Lemma push_id e x : listener_id (push e x) = listener_id x.
Proof. unfold push. destruct (event_kind_matches _ _); reflexivity. Qed.

Lemma find_map_push n e ls :
  find (by_listener_id n) (map (push e) ls) = option_map (push e) (find (by_listener_id n) ls).
Proof.
  induction ls as [|x ls IH]; simpl; [reflexivity|].
  unfold by_listener_id at 1. rewrite push_id. fold (by_listener_id n x).
  destruct (by_listener_id n x); [reflexivity | exact IH].
Qed.

Lemma find_fresh_listener n k ls :
  Forall (fun x => listener_id x < n) ls ->
  find (by_listener_id n) (ls ++ [mkListener n k []]) = Some (mkListener n k []).
Proof.
  intros Hf. apply find_app_last.
  - apply existsb_false_filter_inv. intros x Hx. rewrite Forall_forall in Hf.
    specialize (Hf x Hx). unfold by_listener_id. apply Nat.eqb_neq. lia.
  - apply Nat.eqb_refl.
Qed.

Lemma received_find n st :
  received n st =
  match find (by_listener_id n) (listeners st) with
  | Some x => listener_queue x
  | None => []
  end.
Proof. reflexivity. Qed.

Lemma post_delivers `{TokenService} ctx url description st l st1 n x :
  find (by_listener_id n) (listeners st) = Some x ->
  listener_kind x = LinkCreatedKind ->
  post ctx url description st = (inr l, st1) ->
  newLink_payloads n st1 = (newLink_payloads n st ++ [l])%list.
Proof.
  intros Hx Hk Hp. apply post_success in Hp as [Hls _].
  unfold newLink_payloads. rewrite !received_find, Hls, find_map_push, Hx. simpl.
  unfold push. rewrite Hk. simpl. rewrite flat_map_app. reflexivity.
Qed.

Lemma post_wf `{TokenService} ctx url description st l st1 :
  listeners_wf st -> post ctx url description st = (inr l, st1) -> listeners_wf st1.
Proof.
  intros Hwf Hp. apply post_success in Hp as [Hls Hn].
  unfold listeners_wf in *. rewrite Hls, Hn, Forall_map.
  apply Forall_impl with (P := fun x => listener_id x < next_id st); [|exact Hwf].
  intros x Hx. simpl. rewrite push_id. lia.
Qed.

Lemma subscribe_fresh ctx st n st1 :
  listeners_wf st -> newLinkSubscribe ctx st = (inr n, st1) ->
  find (by_listener_id n) (listeners st1) = Some (mkListener n LinkCreatedKind []).
Proof.
  intros Hwf Hs. apply subscribe_result in Hs as (-> & Hls & _).
  rewrite Hls. apply find_fresh_listener. exact Hwf.
Qed.

(** C9.  With listener ids below the id counter: a [newLink] listener
    registered before a successful [post] receives exactly one payload
    from it, the created link; one registered after receives nothing from
    it; and in general every [newLink] listener present when [post]
    publishes gets exactly the created link appended to what it had. *)
Theorem C9_newLink_delivery `{TokenService} ctx ctx' url description st :
  listeners_wf st ->
  (forall n st1 l st2,
     newLinkSubscribe ctx' st = (inr n, st1) ->
     post ctx url description st1 = (inr l, st2) ->
     newLink_payloads n st2 = [l]) /\
  (forall l st1 n st2,
     post ctx url description st = (inr l, st1) ->
     newLinkSubscribe ctx' st1 = (inr n, st2) ->
     newLink_payloads n st2 = []) /\
  (forall n x l st1,
     find (by_listener_id n) (listeners st) = Some x ->
     listener_kind x = LinkCreatedKind ->
     post ctx url description st = (inr l, st1) ->
     newLink_payloads n st1 = (newLink_payloads n st ++ [l])%list).
Proof.
  intros Hwf. split; [|split].
  - intros n st1 l st2 Hs Hp.
    pose proof (subscribe_fresh _ _ _ _ Hwf Hs) as Hf.
    rewrite (post_delivers _ _ _ _ _ _ _ _ Hf eq_refl Hp).
    unfold newLink_payloads. rewrite received_find, Hf. reflexivity.
  - intros l st1 n st2 Hp Hs.
    pose proof (subscribe_fresh _ _ _ _ (post_wf _ _ _ _ _ _ Hwf Hp) Hs) as Hf.
    unfold newLink_payloads. rewrite received_find, Hf. reflexivity.
  - intros n x l st1 Hx Hk Hp. exact (post_delivers _ _ _ _ _ _ _ _ Hx Hk Hp).
Qed.

Lemma C9_newLink_delivery_witness :
  listeners_wf st0 /\
  exists n st1 l st2,
    newLinkSubscribe (mkCtx None) st0 = (inr n, st1) /\
    @post toy_jwt (mkCtx (Some "Bearer #u1")) "https://graphql.org" "GraphQL" st1
      = (inr l, st2) /\
    newLink_payloads n st2 = [l].
Proof.
  assert (Hwf : listeners_wf st0) by constructor.
  split; [exact Hwf|].
  do 4 eexists. split; [compute; reflexivity|]. split; [compute; reflexivity|].
  exact (proj1 (@C9_newLink_delivery toy_jwt (mkCtx (Some "Bearer #u1")) (mkCtx None)
           "https://graphql.org" "GraphQL" st0 Hwf) _ _ _ _ eq_refl eq_refl).
Defined.

(** * The in-memory server of the README

    Before Prisma, the README's [index.js] keeps the links in a module-level
    array [links] and a counter [idCount]; its resolvers mutate both.
    [idCount] is a JavaScript number: a double, whose integers are exact
    only up to 2^53. *)
Module Mem.

Record MLink := mkMLink { mid : string; murl : string; mdescription : string }.

Record MStore := mkMStore { mlinks : list MLink; idCount : N }.

(** 2^53: above it doubles no longer hold every integer. *)
Definition max_safe : N := 2 ^ 53.

(** [idCount++] on a non-negative integer-valued number: exact below
    2^53; at 2^53 the sum 2^53 + 1 rounds (to even) back to 2^53, so the
    counter, which starts at 1, never goes past 2^53. *)
Definition js_incr (n : N) : N := if (n <? max_safe)%N then N.succ n else n.

(** Template literal [`${n}`] of a non-negative integer number below
    10^21 (printed in plain decimal). *)
Definition js_number (n : N) : string :=
  DecimalString.NilEmpty.string_of_uint (N.to_uint n).

Definition link0 : MLink :=
  mkMLink "link-0" "www.howtographql.com" "Fullstack tutorial for GraphQL".

(** [let links = [link0]; let idCount = links.length] *)
Definition initial : MStore := mkMStore [link0] (N.of_nat (length [link0])).

(** The error of [link.url = ...] when [link] is [undefined]. *)
Inductive MErr := TypeError.

Definition by_id (id : string) (l : MLink) : bool := String.eqb (mid l) id.

(** Query.feed: [() => links] *)
Definition feed (st : MStore) : list MLink := mlinks st.

(** Query.link: [links.find(link => link.id === args.id)] *)
Definition link (id : string) (st : MStore) : option MLink :=
  find (by_id id) (mlinks st).

(** Mutation.post *)
Definition post (url description : string) (st : MStore) : MLink * MStore :=
  let l := mkMLink ("link-" ++ js_number (idCount st)) url description in
  (l, mkMStore (mlinks st ++ [l]) (js_incr (idCount st))).

(** Assignment through the reference [find] returned: the first link
    with the id is the one mutated. *)
Fixpoint update_first (id : string) (f : MLink -> MLink) (ls : list MLink) : list MLink :=
  match ls with
  | [] => []
  | l :: r => if by_id id l then f l :: r else l :: update_first id f r
  end.

(** Mutation.updateLink *)
Definition updateLink (id url description : string) (st : MStore)
  : (MErr + MLink) * MStore :=
  match find (by_id id) (mlinks st) with
  | None => (inl TypeError, st)
  | Some l =>
      let l' := mkMLink (mid l) url description in
      (inr l', mkMStore (update_first id (fun _ => l') (mlinks st)) (idCount st))
  end.

Fixpoint index_first (id : string) (ls : list MLink) : option nat :=
  match ls with
  | [] => None
  | l :: r => if by_id id l then Some 0 else option_map S (index_first id r)
  end.

(** [links.indexOf(link)]: the position of the object [find] returned,
    [-1] for [undefined] (the array holds no [undefined]). *)
Definition indexOf (link : option MLink) (id : string) (ls : list MLink) : Z :=
  match link with
  | Some _ => match index_first id ls with Some i => Z.of_nat i | None => (-1)%Z end
  | None => (-1)%Z
  end.

(** [Array.prototype.splice(start, 1)]: a negative start counts from the
    end (clamped at 0), a start past the end is clamped to the length. *)
Definition splice1 {A} (ls : list A) (start : Z) : list A :=
  let len := Z.of_nat (length ls) in
  let s := if (start <? 0)%Z then Z.max (len + start) 0 else Z.min start len in
  (firstn (Z.to_nat s) ls ++ skipn (S (Z.to_nat s)) ls)%list.

(** Mutation.deleteLink *)
Definition deleteLink (id : string) (st : MStore) : option MLink * MStore :=
  let link := find (by_id id) (mlinks st) in
  let index := indexOf link id (mlinks st) in
  (link, mkMStore (splice1 (mlinks st) index) (idCount st)).

(** A mutation request against the in-memory server. *)
Inductive MOp :=
| OpPost (url description : string)
| OpUpdate (id url description : string)
| OpDelete (id : string).

Definition run_op (o : MOp) (st : MStore) : MStore :=
  match o with
  | OpPost url d => snd (post url d st)
  | OpUpdate id url d => snd (updateLink id url d st)
  | OpDelete id => snd (deleteLink id st)
  end.

Definition run_ops (os : list MOp) (st : MStore) : MStore :=
  fold_left (fun st o => run_op o st) os st.

End Mem.

Module MemProps.
Import Mem.

Lemma js_number_inj n m : js_number n = js_number m -> n = m.
Proof.
  unfold js_number. intros H. apply DecimalN.Unsigned.to_uint_inj.
  pose proof (DecimalString.NilEmpty.usu (N.to_uint n)) as Hn.
  rewrite H, DecimalString.NilEmpty.usu in Hn. congruence.
Qed.

Lemma append_cancel_l (p a b : string) : p ++ a = p ++ b -> a = b.
Proof. induction p as [|c p IH]; simpl; [auto|]. intros H. injection H. exact IH. Qed.

Lemma splice1_last {A} (ls : list A) : splice1 ls (-1) = removelast ls.
Proof.
  unfold splice1. cbv zeta. rewrite removelast_firstn_len.
  replace ((-1 <? 0)%Z) with true by reflexivity.
  destruct (length ls) as [|n] eqn:Hl.
  - destruct ls; [reflexivity | discriminate].
  - replace (Z.max (Z.of_nat (S n) + -1) 0) with (Z.of_nat n) by lia.
    rewrite Nat2Z.id, (skipn_all2 (n := S n)) by lia. rewrite app_nil_r. reflexivity.
Qed.

Lemma splice1_at {A} (ls : list A) (i : nat) :
  splice1 ls (Z.of_nat i) = (firstn i ls ++ skipn (S i) ls)%list.
Proof.
  unfold splice1. replace (Z.of_nat i <? 0)%Z with false by (symmetry; apply Z.ltb_ge; lia).
  destruct (Nat.le_gt_cases i (length ls)) as [Hle|Hgt].
  - rewrite Z.min_l by lia. rewrite Nat2Z.id. reflexivity.
  - rewrite Z.min_r by lia. rewrite Nat2Z.id.
    rewrite !firstn_all2, !skipn_all2 by lia. reflexivity.
Qed.

Lemma index_first_split id ls l :
  find (by_id id) ls = Some l ->
  exists i pre post,
    index_first id ls = Some i /\ ls = (pre ++ l :: post)%list /\ length pre = i /\
    Forall (fun x => by_id id x = false) pre.
Proof.
  induction ls as [|x r IH]; simpl; [discriminate|].
  destruct (by_id id x) eqn:Hx.
  - intros [= ->]. exists 0, [], r. repeat split; auto.
  - intros Hf. destruct (IH Hf) as (i & pre & post & Hi & -> & Hlen & Hpre).
    exists (S i), (x :: pre), post. rewrite Hi. repeat split; simpl; auto.
Qed.

Lemma remove_at_split {A} (pre post : list A) (x : A) :
  (firstn (length pre) (pre ++ x :: post) ++ skipn (S (length pre)) (pre ++ x :: post))%list
  = (pre ++ post)%list.
Proof.
  induction pre as [|y pre IH]; simpl; [reflexivity|]. f_equal. exact IH.
Qed.

(** Deleting an id that no link has: [find] gives [undefined],
    [indexOf] gives [-1], and [splice(-1, 1)] removes the last link. *)
Theorem mem_deleteLink_unknown_removes_last id st :
  find (by_id id) (mlinks st) = None ->
  deleteLink id st = (None, mkMStore (removelast (mlinks st)) (idCount st)).
Proof.
  intros Hf. unfold deleteLink, indexOf. rewrite Hf, splice1_last. reflexivity.
Qed.

Definition two_links : MStore :=
  mkMStore [link0; mkMLink "link-1" "www.prisma.io" "Prisma replaces traditional ORMs"] 2.

Lemma mem_deleteLink_unknown_removes_last_witness :
  find (by_id "link-7") (mlinks two_links) = None /\
  deleteLink "link-7" two_links = (None, mkMStore [link0] 2).
Proof.
  assert (H : find (by_id "link-7") (mlinks two_links) = None) by reflexivity.
  split; [exact H|]. exact (mem_deleteLink_unknown_removes_last "link-7" two_links H).
Defined.

(** Deleting an id some link has returns the first such link and removes
    exactly it, keeping the links around it in order. *)
Theorem mem_deleteLink_known id st l :
  find (by_id id) (mlinks st) = Some l ->
  exists pre post,
    mlinks st = (pre ++ l :: post)%list /\
    Forall (fun x => by_id id x = false) pre /\
    deleteLink id st = (Some l, mkMStore (pre ++ post) (idCount st)).
Proof.
  intros Hf. destruct (index_first_split _ _ _ Hf) as (i & pre & post & Hi & Hls & Hlen & Hpre).
  exists pre, post. split; [exact Hls|]. split; [exact Hpre|].
  unfold deleteLink, indexOf. rewrite Hf, Hi, splice1_at, <- Hlen, Hls, remove_at_split.
  reflexivity.
Qed.

Lemma mem_deleteLink_known_witness :
  find (by_id "link-0") (mlinks two_links) = Some link0 /\
  exists pre post,
    mlinks two_links = (pre ++ link0 :: post)%list /\
    Forall (fun x => by_id "link-0" x = false) pre /\
    deleteLink "link-0" two_links = (Some link0, mkMStore (pre ++ post) (idCount two_links)).
Proof.
  assert (H : find (by_id "link-0") (mlinks two_links) = Some link0) by reflexivity.
  split; [exact H|]. exact (mem_deleteLink_known "link-0" two_links link0 H).
Defined.

Lemma update_first_split id f pre l post :
  Forall (fun x => by_id id x = false) pre -> by_id id l = true ->
  update_first id f (pre ++ l :: post) = (pre ++ f l :: post)%list.
Proof.
  intros Hpre Hl. induction Hpre as [|x pre Hx Hpre IH]; simpl.
  - rewrite Hl. reflexivity.
  - rewrite Hx, IH. reflexivity.
Qed.

(** [updateLink] on an id no link has throws (assigning through
    [undefined]) and changes nothing; on an id some link has, it
    overwrites url and description of the first such link, keeps its id,
    returns it and leaves every other link as it was. *)
Theorem mem_updateLink id url description st :
  (find (by_id id) (mlinks st) = None ->
   updateLink id url description st = (inl TypeError, st)) /\
  (forall l, find (by_id id) (mlinks st) = Some l ->
   exists pre post,
     mlinks st = (pre ++ l :: post)%list /\
     updateLink id url description st =
       (inr (mkMLink (mid l) url description),
        mkMStore (pre ++ mkMLink (mid l) url description :: post) (idCount st))).
Proof.
  split.
  - intros Hf. unfold updateLink. rewrite Hf. reflexivity.
  - intros l Hf.
    destruct (index_first_split _ _ _ Hf) as (i & pre & post & _ & Hls & _ & Hpre).
    exists pre, post. split; [exact Hls|].
    pose proof (find_some _ _ Hf) as [_ Hl].
    unfold updateLink. rewrite Hf, Hls, (update_first_split _ _ _ _ _ Hpre Hl).
    reflexivity.
Qed.

Definition ids_ok (st : MStore) : Prop :=
  NoDup (map mid (mlinks st)) /\
  Forall (fun s => exists k, (k < idCount st)%N /\ s = "link-" ++ js_number k)
    (map mid (mlinks st)).

Lemma by_id_true id x : by_id id x = true <-> mid x = id.
Proof. unfold by_id. apply String.eqb_eq. Qed.

Lemma remove_at_nodup {A} (k : nat) (l : list A) :
  NoDup l -> NoDup (firstn k l ++ skipn (S k) l) /\ incl (firstn k l ++ skipn (S k) l) l.
Proof.
  revert k. induction l as [|x r IH]; intros k Hnd.
  - destruct k; simpl; split; [constructor | intros a [] | constructor | intros a []].
  - inversion Hnd as [|? ? Hx Hr]; subst. destruct k as [|k]; simpl.
    + split; [exact Hr|]. intros a Ha. right. exact Ha.
    + destruct (IH k Hr) as [Hn Hi]. split.
      * constructor; [|exact Hn]. intros Hin. apply Hx, Hi, Hin.
      * intros a [<-|Ha]; [left; reflexivity | right; apply Hi, Ha].
Qed.

Lemma splice1_remove_at {A} (ls : list A) start :
  exists k, splice1 ls start = (firstn k ls ++ skipn (S k) ls)%list.
Proof. unfold splice1. cbv zeta. eexists. reflexivity. Qed.

Lemma ids_ok_initial : ids_ok initial.
Proof.
  split.
  - repeat constructor. intros [].
  - constructor; [|constructor]. exists 0%N. split; [cbn; lia | reflexivity].
Qed.

Lemma js_incr_below n : (n < max_safe)%N -> js_incr n = N.succ n.
Proof. intros H. unfold js_incr. apply N.ltb_lt in H. rewrite H. reflexivity. Qed.

Lemma js_incr_ge n : (n <= js_incr n)%N.
Proof. unfold js_incr. destruct (n <? max_safe)%N; lia. Qed.

Lemma ids_ok_post url description st :
  (idCount st < max_safe)%N ->
  ids_ok st -> ids_ok (snd (post url description st)).
Proof.
  intros Hm [Hnd Hf]. unfold post. cbv zeta. cbn [snd mlinks idCount]. unfold ids_ok.
  cbn [mlinks idCount]. rewrite js_incr_below by exact Hm. rewrite map_app. cbn [map mid]. split.
  - apply NoDup_app; [exact Hnd | repeat constructor; intros [] |].
    intros a Ha [<-|[]]. rewrite Forall_forall in Hf.
    destruct (Hf _ Ha) as (k & Hk & Hs). apply append_cancel_l, js_number_inj in Hs. lia.
  - apply Forall_app. split.
    + apply Forall_impl with (P := fun s => exists k, (k < idCount st)%N /\ s = "link-" ++ js_number k);
        [|exact Hf].
      intros a (k & Hk & Hs). exists k. split; [lia | exact Hs].
    + constructor; [|constructor]. exists (idCount st). split; [lia | reflexivity].
Qed.

Lemma update_keeps_ids id url description st :
  map mid (mlinks (snd (updateLink id url description st))) = map mid (mlinks st).
Proof.
  unfold updateLink. destruct (find (by_id id) (mlinks st)) as [l|] eqn:Hf; [|reflexivity].
  destruct (index_first_split _ _ _ Hf) as (i & pre & post & _ & Hls & _ & Hpre).
  pose proof (find_some _ _ Hf) as [_ Hl].
  simpl. rewrite Hls, (update_first_split _ _ _ _ _ Hpre Hl), !map_app. reflexivity.
Qed.

Lemma ids_ok_update id url description st :
  ids_ok st -> ids_ok (snd (updateLink id url description st)).
Proof.
  unfold ids_ok. rewrite update_keeps_ids.
  unfold updateLink. destruct (find (by_id id) (mlinks st)); exact (fun H => H).
Qed.

Lemma ids_ok_delete id st : ids_ok st -> ids_ok (snd (deleteLink id st)).
Proof.
  intros [Hnd Hf]. unfold deleteLink. simpl.
  destruct (splice1_remove_at (mlinks st) (indexOf (find (by_id id) (mlinks st)) id (mlinks st)))
    as [k ->].
  unfold ids_ok. cbn [mlinks idCount]. rewrite map_app, <- firstn_map, <- skipn_map.
  destruct (remove_at_nodup k _ Hnd) as [Hn Hi]. split; [exact Hn|].
  rewrite Forall_forall in *. intros a Ha. apply Hf, Hi, Ha.
Qed.

Lemma idCount_run_op o st : (idCount st <= idCount (run_op o st))%N.
Proof.
  destruct o as [url d|id url d|id]; cbn [run_op].
  - apply js_incr_ge.
  - unfold updateLink. destruct (find (by_id id) (mlinks st)); cbn; lia.
  - cbn. lia.
Qed.

Lemma idCount_run_ops os st : (idCount st <= idCount (run_ops os st))%N.
Proof.
  unfold run_ops. revert st. induction os as [|o os IH]; intros st; simpl; [lia|].
  pose proof (idCount_run_op o st). specialize (IH (run_op o st)). lia.
Qed.

Lemma ids_ok_run_ops os st :
  (idCount (run_ops os st) < max_safe)%N -> ids_ok st -> ids_ok (run_ops os st).
Proof.
  revert st. induction os as [|o os IH]; intros st Hm H; [exact H|].
  change (run_ops (o :: os) st) with (run_ops os (run_op o st)) in *.
  apply IH; [exact Hm|].
  pose proof (idCount_run_ops os (run_op o st)) as H1.
  pose proof (idCount_run_op o st) as H0.
  destruct o; simpl.
  - apply ids_ok_post; [cbn [run_op] in H0, H1, Hm; lia | exact H].
  - apply ids_ok_update, H.
  - apply ids_ok_delete, H.
Qed.

(** Invariant of the in-memory server: in every state reached from the
    initial one by any sequence of post, updateLink and deleteLink calls
    in which [idCount] stays below 2^53, the link ids are pairwise
    distinct and each has the form [link-k] with [k] below the current
    [idCount]. *)
Theorem mem_ids_distinct os :
  (idCount (run_ops os initial) < max_safe)%N ->
  NoDup (map mid (mlinks (run_ops os initial))) /\
  Forall (fun s => exists k, (k < idCount (run_ops os initial))%N /\ s = "link-" ++ js_number k)
    (map mid (mlinks (run_ops os initial))).
Proof. intros Hm. exact (ids_ok_run_ops os initial Hm ids_ok_initial). Qed.

Lemma ids_ok_fresh st k :
  ids_ok st -> (idCount st <= k)%N ->
  existsb (by_id ("link-" ++ js_number k)) (mlinks st) = false.
Proof.
  intros [_ Hf] Hk. apply not_true_is_false. intros He.
  apply existsb_exists in He as (x & Hx & Hb). apply by_id_true in Hb.
  rewrite Forall_forall in Hf. destruct (Hf (mid x) (in_map _ _ _ Hx)) as (j & Hj & Hs).
  rewrite Hb in Hs. apply append_cancel_l, js_number_inj in Hs. lia.
Qed.

(** In any reachable state whose [idCount] is below 2^53, [post] appends
    the new link at the end of the feed, gives it the id
    [link-<idCount>], and the [link] query for that id then returns
    exactly the new link. *)
Theorem mem_post_then_link os url description :
  let st := run_ops os initial in
  (idCount st < max_safe)%N ->
  let (l, st') := post url description st in
  mid l = "link-" ++ js_number (idCount st) /\
  feed st' = (feed st ++ [l])%list /\
  link (mid l) st' = Some l.
Proof.
  cbv zeta. intros Hm. pose proof (ids_ok_run_ops os initial Hm ids_ok_initial) as Hok.
  set (st := run_ops os initial) in *. unfold post, link, feed. simpl.
  split; [reflexivity|]. split; [reflexivity|].
  apply find_app_last; [apply ids_ok_fresh; [exact Hok | lia] | apply by_id_true; reflexivity].
Qed.

(** A successful [updateLink] is visible to the [link] query: looking up
    the same id afterwards returns the updated link. *)
Theorem mem_update_then_link id url description st l :
  updateLink id url description st = (inr l, snd (updateLink id url description st)) ->
  link id (snd (updateLink id url description st)) = Some l.
Proof.
  unfold updateLink. destruct (find (by_id id) (mlinks st)) as [l0|] eqn:Hf; [|discriminate].
  intros [= <-].
  destruct (index_first_split _ _ _ Hf) as (i & pre & post & _ & Hls & _ & Hpre).
  pose proof (find_some _ _ Hf) as [_ Hl].
  unfold link. simpl. rewrite Hls, (update_first_split _ _ _ _ _ Hpre Hl).
  clear Hls. induction Hpre as [|x pre Hx Hpre IH]; simpl.
  - unfold by_id in *. simpl. rewrite Hl. reflexivity.
  - rewrite Hx. exact IH.
Qed.

Lemma mem_update_then_link_witness :
  updateLink "link-0" "u" "d" initial = (inr (mkMLink "link-0" "u" "d"), snd (updateLink "link-0" "u" "d" initial)) /\
  link "link-0" (snd (updateLink "link-0" "u" "d" initial)) = Some (mkMLink "link-0" "u" "d").
Proof.
  assert (H : updateLink "link-0" "u" "d" initial =
    (inr (mkMLink "link-0" "u" "d"), snd (updateLink "link-0" "u" "d" initial))) by reflexivity.
  split; [exact H|]. exact (mem_update_then_link _ _ _ _ _ H).
Defined.

(** In any reachable state whose [idCount] is below 2^53, deleting an id
    that a link has removes that link for good: the [link] query for the
    id returns nothing afterwards and the feed is one link shorter. *)
Theorem mem_delete_then_link os id :
  let st := run_ops os initial in
  (idCount st < max_safe)%N ->
  existsb (by_id id) (mlinks st) = true ->
  link id (snd (deleteLink id st)) = None /\
  S (length (feed (snd (deleteLink id st)))) = length (feed st).
Proof.
  cbv zeta. intros Hm. pose proof (ids_ok_run_ops os initial Hm ids_ok_initial) as [Hnd _].
  set (st := run_ops os initial) in *. intros He.
  destruct (find (by_id id) (mlinks st)) as [l|] eqn:Hf;
    [| rewrite (existsb_find_none_rev _ _ Hf) in He; discriminate].
  destruct (index_first_split _ _ _ Hf) as (i & pre & post & Hi & Hls & Hlen & Hpre).
  pose proof (find_some _ _ Hf) as [_ Hl]. apply by_id_true in Hl.
  unfold deleteLink, indexOf, link, feed. simpl.
  rewrite Hf, Hi, splice1_at, <- Hlen, Hls, remove_at_split. simpl. split.
  - apply existsb_find_none. apply not_true_is_false. intros Hx.
    apply existsb_exists in Hx as (x & Hx & Hb). apply by_id_true in Hb.
    apply in_app_or in Hx as [Hx|Hx].
    + rewrite Forall_forall in Hpre. specialize (Hpre x Hx).
      apply by_id_true in Hb. congruence.
    + rewrite Hls, map_app in Hnd. simpl in Hnd. apply NoDup_remove_2 in Hnd.
      apply Hnd. rewrite <- map_app, Hl, <- Hb. apply in_map, in_or_app. right. exact Hx.
  - rewrite !length_app. simpl. lia.
Qed.

(** A run of the server: a post, the deletion of the first link, an
    update and another post. *)
Definition sample_ops : list MOp :=
  [OpPost "www.prisma.io" "Prisma replaces traditional ORMs"; OpDelete "link-0";
   OpUpdate "link-1" "www.prisma.io/docs" "Prisma docs"; OpPost "graphql.org" "GraphQL"].

Lemma mem_delete_then_link_witness :
  (idCount (run_ops sample_ops initial) < max_safe)%N /\
  existsb (by_id "link-1") (mlinks (run_ops sample_ops initial)) = true /\
  link "link-1" (snd (deleteLink "link-1" (run_ops sample_ops initial))) = None /\
  S (length (feed (snd (deleteLink "link-1" (run_ops sample_ops initial))))) =
    length (feed (run_ops sample_ops initial)).
Proof.
  assert (Hm : (idCount (run_ops sample_ops initial) < max_safe)%N) by (vm_compute; reflexivity).
  assert (H : existsb (by_id "link-1") (mlinks (run_ops sample_ops initial)) = true)
    by (vm_compute; reflexivity).
  split; [exact Hm|]. split; [exact H|]. exact (mem_delete_then_link sample_ops "link-1" Hm H).
Defined.

Lemma mem_ids_distinct_witness :
  (idCount (run_ops sample_ops initial) < max_safe)%N /\
  NoDup (map mid (mlinks (run_ops sample_ops initial))) /\
  Forall (fun s => exists k, (k < idCount (run_ops sample_ops initial))%N /\
                             s = "link-" ++ js_number k)
    (map mid (mlinks (run_ops sample_ops initial))).
Proof.
  assert (Hm : (idCount (run_ops sample_ops initial) < max_safe)%N) by (vm_compute; reflexivity).
  split; [exact Hm|]. exact (mem_ids_distinct sample_ops Hm).
Defined.

Lemma mem_post_then_link_witness :
  (idCount (run_ops sample_ops initial) < max_safe)%N /\
  let st := run_ops sample_ops initial in
  let (l, st') := post "howtographql.com" "Tutorial" st in
  mid l = "link-" ++ js_number (idCount st) /\
  feed st' = (feed st ++ [l])%list /\
  link (mid l) st' = Some l.
Proof.
  assert (Hm : (idCount (run_ops sample_ops initial) < max_safe)%N) by (vm_compute; reflexivity).
  split; [exact Hm|]. exact (mem_post_then_link sample_ops "howtographql.com" "Tutorial" Hm).
Defined.

Lemma js_incr_max : js_incr max_safe = max_safe.
Proof. unfold js_incr. rewrite N.ltb_irrefl. reflexivity. Qed.

Lemma find_app_hit {A} (f : A -> bool) xs ys y :
  find f xs = Some y -> find f (xs ++ ys) = Some y.
Proof.
  induction xs as [|x xs IH]; simpl; [discriminate|].
  destruct (f x); [exact (fun H => H) | exact IH].
Qed.

Lemma find_last_hit {A} (f : A -> bool) xs x :
  f x = true -> find f (xs ++ [x]) <> None.
Proof.
  intros Hx. induction xs as [|y xs IH]; simpl.
  - rewrite Hx. discriminate.
  - destruct (f y); [discriminate | exact IH].
Qed.

(** Once [idCount] has reached 2^53 it no longer moves: two successive
    posts get the same id, both links are in the feed, and the [link]
    query for that id still returns what it returned before the second
    post, never reaching the newer link unless it equals the older one. *)
Theorem mem_ids_repeat st url1 d1 url2 d2 :
  idCount st = max_safe ->
  let (l1, st1) := post url1 d1 st in
  let (l2, st2) := post url2 d2 st1 in
  mid l2 = mid l1 /\ idCount st2 = max_safe /\
  feed st2 = (feed st ++ [l1; l2])%list /\
  link (mid l2) st2 = link (mid l1) st1 /\ link (mid l1) st1 <> None.
Proof.
  intros Hc. unfold post. cbn [fst snd mlinks idCount]. rewrite Hc, js_incr_max.
  cbn [mid]. split; [reflexivity|]. split; [reflexivity|].
  split; [unfold feed; cbn [mlinks]; rewrite <- app_assoc; reflexivity|].
  unfold link. cbn [mlinks].
  set (l1 := mkMLink ("link-" ++ js_number max_safe) url1 d1).
  set (l2 := mkMLink ("link-" ++ js_number max_safe) url2 d2).
  assert (Hl1 : by_id ("link-" ++ js_number max_safe) l1 = true) by apply String.eqb_refl.
  pose proof (find_last_hit _ (mlinks st) l1 Hl1) as Hn.
  destruct (find (by_id ("link-" ++ js_number max_safe)) (mlinks st ++ [l1])) as [y|] eqn:Hf;
    [|contradiction].
  split; [|exact Hn]. exact (find_app_hit _ _ [l2] _ Hf).
Qed.

Definition saturated : MStore := mkMStore [] max_safe.

Lemma mem_ids_repeat_witness :
  idCount saturated = max_safe /\
  let (l1, st1) := post "a.org" "A" saturated in
  let (l2, st2) := post "b.org" "B" st1 in
  mid l2 = mid l1 /\ idCount st2 = max_safe /\
  feed st2 = (feed saturated ++ [l1; l2])%list /\
  link (mid l2) st2 = link (mid l1) st1 /\ link (mid l1) st1 <> None.
Proof.
  assert (H : idCount saturated = max_safe) by reflexivity.
  split; [exact H|]. exact (mem_ids_repeat saturated "a.org" "A" "b.org" "B" H).
Defined.

End MemProps.

(** ** Properties of the resolvers beyond the spec's claims *)

Lemma drawn_below_fresh {A} (id : A -> string) n xs :
  forallb (fun x => drawn_below n (id x)) xs = true ->
  existsb (fun x => String.eqb (id x) (HexString.of_nat n)) xs = false.
Proof.
  intros Hall. apply existsb_false_filter_inv. intros x Hx.
  rewrite forallb_forall in Hall. specialize (Hall x Hx).
  unfold drawn_below in Hall. apply existsb_exists in Hall as (k & Hk & He).
  apply in_seq in Hk. apply String.eqb_eq in He.
  apply String.eqb_neq. rewrite He. intros Heq.
  apply (f_equal HexString.to_nat) in Heq. rewrite !HexString.to_nat_of_nat in Heq. lia.
Qed.

Lemma existsb_find_some {A} (f : A -> bool) xs :
  existsb f xs = true -> exists x, find f xs = Some x /\ In x xs /\ f x = true.
Proof.
  intros He. destruct (find f xs) as [x|] eqn:Hf.
  - exists x. split; [reflexivity|]. apply find_some, Hf.
  - rewrite (existsb_find_none_rev f xs Hf) in He. discriminate.
Qed.

Lemma filter_all {A} (xs : list A) : filter (fun _ => true) xs = xs.
Proof. induction xs as [|x xs IH]; simpl; [reflexivity | f_equal; exact IH]. Qed.

Lemma post_result_ok `{TokenService} ctx url description st l st1 :
  post ctx url description st = (inr l, st1) ->
  exists uid,
    getUserId ctx st = (inr uid, st) /\ user_exists st uid = true /\
    l = mkLink (HexString.of_nat (next_id st)) (next_id st) description url (Some uid) /\
    links st1 = (links st ++ [l])%list /\ users st1 = users st /\ votes st1 = votes st /\
    listeners st1 = map (push (LinkCreated l)) (listeners st) /\
    next_id st1 = S (next_id st).
Proof.
  unfold post. destruct (getUserId ctx st) as [[e|uid] st'] eqn:Hg;
    pose proof (getUserId_store ctx st) as Hs; rewrite Hg in Hs; simpl in Hs; subst st'.
  - rewrite (bind_inl _ _ _ _ _ Hg). discriminate.
  - rewrite (bind_inr _ _ _ _ _ Hg), prisma_createLink_result.
    destruct (user_exists st uid) eqn:Hu; [|discriminate].
    intros Hr. inversion Hr; subst. exists uid. repeat split; auto.
Qed.

Lemma vote_result_ok `{TokenService} ctx linkId st v st1 :
  vote ctx linkId st = (inr v, st1) ->
  getUserId ctx st = (inr (vote_user v), st) /\
  user_exists st (vote_user v) = true /\ link_exists st linkId = true /\
  v = mkVote (HexString.of_nat (next_id st)) (vote_user v) linkId /\
  links st1 = links st /\ users st1 = users st /\ votes st1 = (votes st ++ [v])%list /\
  listeners st1 = map (push (VoteCreated v)) (listeners st) /\
  next_id st1 = S (next_id st).
Proof.
  unfold vote.
  destruct (getUserId ctx st) as [[e|userId] st'] eqn:Hg;
    pose proof (getUserId_store ctx st) as Hs; rewrite Hg in Hs; simpl in Hs; subst st'.
  - rewrite (bind_inl _ _ _ _ _ Hg). discriminate.
  - rewrite (bind_inr _ _ _ _ _ Hg),
      (bind_inr _ _ _ _ _ (prisma_exists_vote_result userId linkId st)).
    destruct (existsb (vote_matches userId linkId) (votes st)); [discriminate|].
    rewrite prisma_createVote_result.
    destruct (user_exists st userId) eqn:Hu; [|discriminate].
    destruct (link_exists st linkId) eqn:Hl; [|discriminate].
    intros Hr. inversion Hr; subst. repeat split; auto.
Qed.

Lemma find_user_of_exists st uid :
  user_exists st uid = true ->
  exists u, find_user st uid = Some u /\ user_id u = uid /\ In u (users st).
Proof.
  intros He. apply existsb_find_some in He as (u & Hf & Hin & Hu).
  exists u. apply String.eqb_eq in Hu. repeat split; assumption.
Qed.

Lemma find_user_self st uid u :
  find_user st uid = Some u -> find_user st (user_id u) = Some u.
Proof.
  intros Hf. pose proof (find_some _ _ Hf) as [_ Hu]. apply String.eqb_eq in Hu.
  rewrite Hu. exact Hf.
Qed.

(** getUserId: a header of the form ["Bearer " ++ t] is decided by the
    token [t] alone: the caller is the user id [t] verifies to, and a [t]
    that does not verify fails with the verification error.  The store is
    never touched. *)
Theorem getUserId_bearer `{TokenService} t st :
  getUserId (mkCtx (Some ("Bearer " ++ t))) st =
  match jwt_verify t with
  | Some userId => (inr userId, st)
  | None => (inl ErrJwt, st)
  end.
Proof.
  unfold getUserId. cbn [authorization].
  assert (Ht : truthy ("Bearer " ++ t) = true) by reflexivity.
  rewrite Ht. cbv zeta. rewrite replace_first_prefix.
  destruct (jwt_verify t); reflexivity.
Qed.

(** login never changes the store.  It fails with ['No such user found']
    when no user has the email, and with ['Invalid password'] when the
    password does not match the hash of the first user with that email. *)
Theorem login_read_only `{TokenService} `{PasswordHasher} ctx email password st :
  snd (login ctx email password st) = st /\
  (email_taken st email = false -> fst (login ctx email password st) = inl ErrNoSuchUser) /\
  (forall u, find (fun u => String.eqb (user_email u) email) (users st) = Some u ->
     bcrypt_compare password (user_password u) = false ->
     fst (login ctx email password st) = inl ErrInvalidPassword).
Proof.
  rewrite login_result. split; [|split].
  - destruct (find _ (users st)) as [u|]; [|reflexivity].
    destruct (bcrypt_compare password (user_password u)); reflexivity.
  - intros He. unfold email_taken in He. rewrite (existsb_find_none _ _ He). reflexivity.
  - intros u Hf Hc. rewrite Hf, Hc. reflexivity.
Qed.

(** Emails stay unique through signup: once a signup with an email has
    succeeded, whatever requests follow, a later signup with the same
    email fails with Prisma's unique-constraint error and adds no user,
    link, vote or listener (only the salt generator has moved). *)
Theorem signup_email_unique `{TokenService} `{PasswordHasher}
    ctx email password name st p st1 :
  signup ctx email password name st = (inr p, st1) ->
  forall rs ctx' password' name',
  let st2 := serve_all rs st1 in
  exists st3,
    signup ctx' email password' name' st2 = (inl ErrUniqueEmail, st3) /\
    users st3 = users st2 /\ links st3 = links st2 /\ votes st3 = votes st2 /\
    listeners st3 = listeners st2 /\ next_id st3 = next_id st2.
Proof.
  intros Hs rs ctx' password' name' st2.
  destruct (signup_success _ _ _ _ _ _ _ Hs) as [_ [Hp Hu]].
  destruct (serve_all_users rs st1) as [extra He].
  assert (Ht : email_taken st2 email = true).
  { unfold email_taken, st2. rewrite He, Hu, !existsb_app. cbn [existsb].
    rewrite Hp. cbn [payload_user user_email]. rewrite String.eqb_refl.
    rewrite orb_true_l, orb_true_r. reflexivity. }
  rewrite signup_result, Ht. eexists. repeat split; reflexivity.
Qed.

(** post by a caller whose token names a user id that no user has fails
    with Prisma's not-found error on [connect], and the store (listeners
    included) is unchanged. *)
Theorem post_unknown_user `{TokenService} ctx url description st uid :
  getUserId ctx st = (inr uid, st) -> user_exists st uid = false ->
  post ctx url description st = (inl ErrNodeNotFound, st).
Proof.
  intros Hg Hu. unfold post. rewrite (bind_inr _ _ _ _ _ Hg), prisma_createLink_result, Hu.
  reflexivity.
Qed.

(** After a successful post, the unfiltered, unpaginated feed lists every
    earlier link in order followed by the new one, and its count has grown
    by one. *)
Theorem post_then_feed `{TokenService} ctx ctx' url description st l st1 :
  post ctx url description st = (inr l, st1) ->
  feed ctx' (mkFeedArgs None None None None) st1 =
  (inr (mkFeed (links st ++ [l]) (S (length (links st)))), st1).
Proof.
  intros Hp. destruct (post_result_ok _ _ _ _ _ _ Hp) as (uid & _ & _ & _ & Hl & _).
  rewrite feed_result. cbn [filter_arg skip_arg first_arg orderBy_arg take_first order_links].
  unfold filter_matches. rewrite filter_all, Hl, length_app. simpl.
  rewrite Nat.add_1_r. reflexivity.
Qed.

(** With link and vote ids drawn from the id counter, a successful post
    is visible through both relation resolvers: its [Link.postedBy]
    resolves to the calling user, and that user's [User.links] ends with
    it. *)
Theorem post_then_relations `{TokenService} ctx url description st l st1 :
  fresh_ids st = true ->
  post ctx url description st = (inr l, st1) ->
  exists u,
    getUserId ctx st = (inr (user_id u), st) /\ In u (users st) /\
    link_postedBy l = Some (user_id u) /\
    Link_postedBy l st1 = (inr (Some u), st1) /\
    exists ls, User_links u st1 = (inr (Some (ls ++ [l])%list), st1).
Proof.
  intros Hfr Hp.
  destruct (post_result_ok _ _ _ _ _ _ Hp) as (uid & Hg & Hu & Hl & Hls & Hus & _).
  apply andb_true_iff in Hfr as [Hfl _].
  assert (Hfind : find_link st1 (link_id l) = Some l).
  { unfold find_link. rewrite Hls. apply find_app_last.
    - rewrite Hl. exact (drawn_below_fresh link_id (next_id st) (links st) Hfl).
    - apply String.eqb_refl. }
  destruct (find_user_of_exists _ _ Hu) as (u & Hfu & Hid & Hin).
  assert (Hfu1 : find_user st1 uid = Some u) by (unfold find_user; rewrite Hus; exact Hfu).
  exists u. rewrite Hid. split; [exact Hg|]. split; [exact Hin|].
  split; [rewrite Hl; reflexivity|]. split.
  - unfold Link_postedBy, bind, get_store, ret. rewrite Hfind, Hl. cbn [link_postedBy].
    rewrite Hfu1. reflexivity.
  - unfold User_links, bind, get_store, ret. rewrite Hid, Hfu1, Hls, filter_app.
    eexists. f_equal. f_equal. f_equal. f_equal.
    rewrite Hl. cbn [filter link_postedBy]. rewrite Hid, String.eqb_refl. reflexivity.
Qed.

(** vote checks for an earlier vote before anything else: on a link (or
    caller) that does not resolve it fails with ['Already voted'] when the
    caller has a vote recorded for that link id, and otherwise with
    Prisma's not-found error on [connect]; the store is unchanged either
    way. *)
Theorem vote_unresolved `{TokenService} ctx linkId st uid :
  getUserId ctx st = (inr uid, st) ->
  user_exists st uid && link_exists st linkId = false ->
  vote ctx linkId st =
  (inl (if existsb (vote_matches uid linkId) (votes st)
        then ErrAlreadyVoted else ErrNodeNotFound), st).
Proof.
  intros Hg Hx. unfold vote.
  rewrite (bind_inr _ _ _ _ _ Hg),
    (bind_inr _ _ _ _ _ (prisma_exists_vote_result uid linkId st)).
  destruct (existsb (vote_matches uid linkId) (votes st)); [reflexivity|].
  rewrite prisma_createVote_result, Hx. reflexivity.
Qed.

(** With link and vote ids drawn from the id counter, a successful vote
    is visible through its relations: [Vote.user] resolves to the caller,
    [Vote.link] to the voted link, and that link's [Link.votes] ends with
    the new vote. *)
Theorem vote_then_relations `{TokenService} ctx linkId st v st1 :
  fresh_ids st = true ->
  vote ctx linkId st = (inr v, st1) ->
  vote_link v = linkId /\
  (exists u, getUserId ctx st = (inr (user_id u), st) /\ In u (users st) /\
             Vote_user v st1 = (inr (Some u), st1)) /\
  (exists lk, link_id lk = linkId /\ In lk (links st) /\
              Vote_link v st1 = (inr (Some lk), st1) /\
              exists vs, Link_votes lk st1 = (inr (Some (vs ++ [v])%list), st1)).
Proof.
  intros Hfr Hv.
  destruct (vote_result_ok _ _ _ _ _ Hv) as (Hg & Hu & Hle & Hvq & Hls & Hus & Hvs & _).
  apply andb_true_iff in Hfr as [_ Hfv].
  assert (Hfind : find_vote st1 (vote_id v) = Some v).
  { unfold find_vote. rewrite Hvs. apply find_app_last.
    - rewrite Hvq. exact (drawn_below_fresh vote_id (next_id st) (votes st) Hfv).
    - apply String.eqb_refl. }
  assert (Hvl : vote_link v = linkId) by (rewrite Hvq; reflexivity).
  split; [exact Hvl|]. split.
  - destruct (find_user_of_exists _ _ Hu) as (u & Hfu & Hid & Hin).
    exists u. rewrite Hid. split; [exact Hg|]. split; [exact Hin|].
    unfold Vote_user, bind, get_store, ret. rewrite Hfind.
    unfold find_user. rewrite Hus. fold (find_user st (vote_user v)). rewrite Hfu.
    reflexivity.
  - unfold link_exists in Hle. destruct (find_link st linkId) as [lk|] eqn:Hfl; [|discriminate].
    pose proof (find_some _ _ Hfl) as [Hin Hid]. apply String.eqb_eq in Hid.
    assert (Hfl1 : find_link st1 linkId = Some lk) by (unfold find_link; rewrite Hls; exact Hfl).
    exists lk. split; [exact Hid|]. split; [exact Hin|]. split.
    + unfold Vote_link, bind, get_store, ret. rewrite Hfind, Hvl, Hfl1. reflexivity.
    + unfold Link_votes, bind, get_store, ret. rewrite Hid, Hfl1, Hvs, filter_app.
      eexists. f_equal. f_equal. f_equal. f_equal.
      cbn [filter]. rewrite Hid, Hvl, String.eqb_refl. reflexivity.
Qed.

Lemma prisma_subscribe_result k st n st1 :
  prisma_subscribe k st = (inr n, st1) ->
  n = next_id st /\
  listeners st1 = (listeners st ++ [mkListener n k []])%list /\
  next_id st1 = S (next_id st).
Proof.
  unfold prisma_subscribe, bind, fresh, modify, ret.
  intros Hr. inversion Hr; subst. repeat split; reflexivity.
Qed.

Lemma received_push n e st st1 :
  listeners st1 = map (push e) (listeners st) ->
  received n st1 =
  match find (by_listener_id n) (listeners st) with
  | Some x => listener_queue (push e x)
  | None => []
  end.
Proof.
  intros Hl. rewrite received_find, Hl, find_map_push.
  destruct (find (by_listener_id n) (listeners st)); reflexivity.
Qed.

(** Subscription.newVote: a listener registered before a successful vote
    receives exactly that vote from it; and every [newVote] listener
    present when a vote succeeds gets exactly the new vote appended to
    what it had received. *)
Theorem newVote_delivery `{TokenService} ctx ctx' linkId st :
  listeners_wf st ->
  (forall n st1 v st2,
     newVoteSubscribe ctx' st = (inr n, st1) ->
     vote ctx linkId st1 = (inr v, st2) ->
     newVote_payloads n st2 = [v]) /\
  (forall n x v st1,
     find (by_listener_id n) (listeners st) = Some x ->
     listener_kind x = VoteCreatedKind ->
     vote ctx linkId st = (inr v, st1) ->
     newVote_payloads n st1 = (newVote_payloads n st ++ [v])%list).
Proof.
  intros Hwf. split.
  - intros n st1 v st2 Hs Hv.
    apply prisma_subscribe_result in Hs as (Hn & Hls1 & _).
    destruct (vote_result_ok _ _ _ _ _ Hv) as (_ & _ & _ & _ & _ & _ & _ & Hls2 & _).
    unfold newVote_payloads. rewrite (received_push n _ _ _ Hls2), Hls1, Hn.
    rewrite (find_fresh_listener _ _ _ Hwf). reflexivity.
  - intros n x v st1 Hx Hk Hv.
    destruct (vote_result_ok _ _ _ _ _ Hv) as (_ & _ & _ & _ & _ & _ & _ & Hls & _).
    unfold newVote_payloads. rewrite (received_push n _ _ _ Hls), received_find, Hx.
    unfold push. rewrite Hk. cbn [event_kind_matches listener_queue].
    rewrite flat_map_app. reflexivity.
Qed.

(** Subscriptions do not leak across kinds: whatever a listener listens
    to, a post adds nothing to its [newVote] payloads and a vote adds
    nothing to its [newLink] payloads. *)
Theorem no_cross_delivery `{TokenService} ctx url description linkId st n :
  (forall l st1, post ctx url description st = (inr l, st1) ->
     newVote_payloads n st1 = newVote_payloads n st) /\
  (forall v st1, vote ctx linkId st = (inr v, st1) ->
     newLink_payloads n st1 = newLink_payloads n st).
Proof.
  split.
  - intros l st1 Hp.
    destruct (post_result_ok _ _ _ _ _ _ Hp) as (_ & _ & _ & _ & _ & _ & _ & Hls & _).
    unfold newVote_payloads. rewrite (received_push n _ _ _ Hls), received_find.
    destruct (find (by_listener_id n) (listeners st)) as [x|]; [|reflexivity].
    unfold push. destruct (event_kind_matches _ _); [|reflexivity].
    cbn [listener_queue]. rewrite flat_map_app. simpl. rewrite app_nil_r. reflexivity.
  - intros v st1 Hv.
    destruct (vote_result_ok _ _ _ _ _ Hv) as (_ & _ & _ & _ & _ & _ & _ & Hls & _).
    unfold newLink_payloads. rewrite (received_push n _ _ _ Hls), received_find.
    destruct (find (by_listener_id n) (listeners st)) as [x|]; [|reflexivity].
    unfold push. destruct (event_kind_matches _ _); [|reflexivity].
    cbn [listener_queue]. rewrite flat_map_app. simpl. rewrite app_nil_r. reflexivity.
Qed.

(** updateLink is visible in the feed: after a successful updateLink on
    an id, the unfiltered, unpaginated feed lists as many links as before,
    in the same order, with every link of that id replaced by the updated
    link, which keeps the id. *)
Theorem update_then_feed `{TokenService} ctx ctx' id url description st l st1 :
  updateLink ctx id url description st = (inr l, st1) ->
  link_id l = id /\
  feed ctx' (mkFeedArgs None None None None) st1 =
  (inr (mkFeed (map (replace_link id l) (links st)) (length (links st))), st1).
Proof.
  unfold updateLink.
  destruct (getUserId ctx st) as [[e|uid] st'] eqn:Hg;
    pose proof (getUserId_store ctx st) as Hs; rewrite Hg in Hs; simpl in Hs; subst st'.
  { rewrite (bind_inl _ _ _ _ _ Hg); discriminate. }
  rewrite (bind_inr _ _ _ _ _ Hg), prisma_updateLink_result.
  destruct (find_link st id) as [l0|] eqn:Hf; [|discriminate].
  pose proof (find_some _ _ Hf) as [_ Hid]. apply String.eqb_eq in Hid.
  intros Hr. inversion Hr; subst. split; [reflexivity|].
  rewrite feed_result. cbn [filter_arg skip_arg first_arg orderBy_arg take_first order_links].
  unfold filter_matches. rewrite filter_all. cbn [links set_listeners set_links].
  rewrite length_map. reflexivity.
Qed.

Lemma update_then_feed_witness :
  exists l st1,
    @updateLink toy_jwt (mkCtx (Some "Bearer #u2")) "l1" "https://www.prisma.io" "Prisma"
      st_links = (inr l, st1) /\
    link_id l = "l1" /\
    feed (mkCtx None) (mkFeedArgs None None None None) st1 =
    (inr (mkFeed (map (replace_link "l1" l) (links st_links)) (length (links st_links))), st1).
Proof.
  do 2 eexists. split; [compute; reflexivity|].
  exact (@update_then_feed toy_jwt (mkCtx (Some "Bearer #u2")) (mkCtx None) "l1"
           "https://www.prisma.io" "Prisma" st_links _ _ eq_refl).
Defined.

Lemma post_unknown_user_witness :
  @getUserId toy_jwt (mkCtx (Some "Bearer #u9")) st0 = (inr "u9", st0) /\
  user_exists st0 "u9" = false /\
  @post toy_jwt (mkCtx (Some "Bearer #u9")) "https://graphql.org" "GraphQL" st0
    = (inl ErrNodeNotFound, st0).
Proof.
  assert (Hg : @getUserId toy_jwt (mkCtx (Some "Bearer #u9")) st0 = (inr "u9", st0))
    by reflexivity.
  assert (Hu : user_exists st0 "u9" = false) by reflexivity.
  split; [exact Hg|]. split; [exact Hu|].
  exact (@post_unknown_user toy_jwt _ "https://graphql.org" "GraphQL" st0 "u9" Hg Hu).
Defined.

Lemma post_then_feed_witness :
  exists l st1,
    @post toy_jwt (mkCtx (Some "Bearer #u1")) "https://graphql.org" "GraphQL" st0
      = (inr l, st1) /\
    feed (mkCtx None) (mkFeedArgs None None None None) st1 =
    (inr (mkFeed (links st0 ++ [l]) (S (length (links st0)))), st1).
Proof.
  do 2 eexists. split; [compute; reflexivity|].
  exact (@post_then_feed toy_jwt (mkCtx (Some "Bearer #u1")) (mkCtx None) "https://graphql.org" "GraphQL" st0 _ _
           eq_refl).
Defined.

Lemma post_then_relations_witness :
  fresh_ids st0 = true /\
  exists l st1,
    @post toy_jwt (mkCtx (Some "Bearer #u1")) "https://graphql.org" "GraphQL" st0
      = (inr l, st1) /\
    Link_postedBy l st1 = (inr (Some alice), st1).
Proof.
  assert (Hfr : fresh_ids st0 = true) by reflexivity.
  split; [exact Hfr|].
  do 2 eexists. split; [compute; reflexivity|].
  destruct (@post_then_relations toy_jwt (mkCtx (Some "Bearer #u1")) "https://graphql.org"
              "GraphQL" st0 _ _ Hfr eq_refl) as (u & Hg & Hin & _ & Hpb & _).
  destruct Hin as [Hu|[]]. subst u. exact Hpb.
Defined.

Lemma signup_email_unique_witness :
  exists p st1,
    @signup toy_jwt toy_bcrypt (mkCtx None) "bob@example.com" "hunter2" "Bob" st0
      = (inr p, st1) /\
    let st2 := @serve_all toy_jwt toy_bcrypt later_requests st1 in
    exists st3,
      @signup toy_jwt toy_bcrypt (mkCtx None) "bob@example.com" "other" "Robert" st2
        = (inl ErrUniqueEmail, st3) /\
      users st3 = users st2 /\ links st3 = links st2 /\ votes st3 = votes st2 /\
      listeners st3 = listeners st2 /\ next_id st3 = next_id st2.
Proof.
  do 2 eexists. split; [compute; reflexivity|].
  exact (@signup_email_unique toy_jwt toy_bcrypt (mkCtx None)
           "bob@example.com" "hunter2" "Bob" st0 _ _ eq_refl
           later_requests (mkCtx None) "other" "Robert").
Defined.

Lemma vote_unresolved_witness :
  @getUserId toy_jwt (mkCtx (Some "Bearer #u1")) st0 = (inr "u1", st0) /\
  user_exists st0 "u1" && link_exists st0 "0x9" = false /\
  @vote toy_jwt (mkCtx (Some "Bearer #u1")) "0x9" st0 = (inl ErrNodeNotFound, st0).
Proof.
  assert (Hg : @getUserId toy_jwt (mkCtx (Some "Bearer #u1")) st0 = (inr "u1", st0))
    by reflexivity.
  assert (Hx : user_exists st0 "u1" && link_exists st0 "0x9" = false) by reflexivity.
  split; [exact Hg|]. split; [exact Hx|].
  exact (@vote_unresolved toy_jwt _ "0x9" st0 "u1" Hg Hx).
Defined.

Lemma vote_then_relations_witness :
  fresh_ids st_posted = true /\
  exists v st1,
    @vote toy_jwt (mkCtx (Some "Bearer #u1")) "0x1" st_posted = (inr v, st1) /\
    vote_link v = "0x1".
Proof.
  assert (Hfr : fresh_ids st_posted = true) by reflexivity.
  split; [exact Hfr|].
  do 2 eexists. split; [compute; reflexivity|].
  exact (proj1 (@vote_then_relations toy_jwt (mkCtx (Some "Bearer #u1")) "0x1" st_posted _ _ Hfr eq_refl)).
Defined.

Lemma newVote_delivery_witness :
  listeners_wf st_posted /\
  exists n st1 v st2,
    newVoteSubscribe (mkCtx None) st_posted = (inr n, st1) /\
    @vote toy_jwt (mkCtx (Some "Bearer #u1")) "0x1" st1 = (inr v, st2) /\
    newVote_payloads n st2 = [v].
Proof.
  assert (Hwf : listeners_wf st_posted) by constructor.
  split; [exact Hwf|].
  do 4 eexists. split; [compute; reflexivity|]. split; [compute; reflexivity|].
  exact (proj1 (@newVote_delivery toy_jwt (mkCtx (Some "Bearer #u1")) (mkCtx None) "0x1"
           st_posted Hwf) _ _ _ _ eq_refl eq_refl).
Defined.
